(** * BigInteger and Rational (biginteger.h): a shallow embedding

    The arithmetic engine of the repository: a sign flag plus a vector of
    base-10^9 limbs (least significant first), the compound-assignment
    operators that mutate it, decimal text conversion, and the Rational
    layer on top.

    Conventions of the embedding:
    - [std::vector<uint32_t>] is a [list Z]; element access is stdpp's lookup
      [l !! i], element assignment is [<[i:=v]> l].
    - [uint32_t], [uint64_t] and [int] values are integers of [Z]; every place
      where the C++ type narrows a value is written with [u32], [u64] or
      [i32].
    - A loop whose trip count depends on the data ([while], or a [for] with a
      data-dependent condition) recurses on a fuel argument and yields [None]
      when the fuel is spent; an access outside a vector yields [None] too.
      Counted loops recurse on their counter.
    - A parameter passed by reference is its value, except where the callee
      writes a field and then reads it through the reference: the right
      operand of Rational's [operator/=] is a [reference], which may be the
      receiver itself. *)

From Stdlib Require Import ZArith QArith Ascii String Lia.
From stdpp Require Import base numbers option list.

Local Open Scope Z_scope.

(** ** Machine integers *)

Definition u32 (z : Z) : Z := z mod 2 ^ 32.
Definition u64 (z : Z) : Z := z mod 2 ^ 64.
Definition i32 (z : Z) : Z := (z + 2 ^ 31) mod 2 ^ 32 - 2 ^ 31.

Definition INT_MIN : Z := - 2 ^ 31.
Definition INT_MAX : Z := 2 ^ 31 - 1.

(** ** The BigInteger class *)

Record BigInteger : Type := mkBigInteger {
  m_digits : list Z;
  m_negative : bool
}.

Definition CELL_BASE : Z := 1000000000.
Definition CELL_LEN : Z := 9.

(** [std::find_if(rbegin, rend, x != 0)]: the index of the last non-zero
    limb, [None] when the search reaches [rend]. *)
Fixpoint find_last_nonzero (l : list Z) : option nat :=
  match l with
  | [] => None
  | d :: l' =>
      match find_last_nonzero l' with
      | Some k => Some (S k)
      | None => if d =? 0 then None else Some O
      end
  end.

Definition remove_leading_zeroes (x : BigInteger) : BigInteger :=
  match m_digits x with
  | [] => x
  | _ :: _ =>
      match find_last_nonzero (m_digits x) with
      | None => mkBigInteger [0] false
      | Some k => mkBigInteger (take (S k) (m_digits x)) (m_negative x)
      end
  end.

Definition shift_left (x : BigInteger) : BigInteger :=
  mkBigInteger (0 :: m_digits x) (m_negative x).

(** The loop of [add_abs], from index [i] on. *)
Fixpoint add_abs_loop (fuel : nat) (i max_size : nat) (carry : Z)
    (digits other : list Z) : option (list Z) :=
  if (i <? max_size)%nat || negb (carry =? 0) then
    match fuel with
    | O => None
    | S fuel' =>
        let digits := if (i =? length digits)%nat then digits ++ [0] else digits in
        d ← digits !! i;
        let sum := u64 (d + carry) in
        let sum := match other !! i with
                   | Some o => u64 (sum + o)
                   | None => sum
                   end in
        add_abs_loop fuel' (S i) max_size (u32 (sum / CELL_BASE))
          (<[i := u32 (sum mod CELL_BASE)]> digits) other
    end
  else Some digits.

(** The loop of [sub_abs]; [remove_leading_zeroes] runs inside it, after
    every limb. *)
Fixpoint sub_abs_loop (fuel : nat) (i : nat) (borrow : Z)
    (this : BigInteger) (other : list Z) : option BigInteger :=
  if (i <? length (m_digits this))%nat then
    match fuel with
    | O => None
    | S fuel' =>
        d ← m_digits this !! i;
        let cell_to_sub := default 0 (other !! i) in
        let diff := d - borrow - cell_to_sub in
        let '(diff, borrow) :=
          if diff <? 0 then (diff + CELL_BASE, 1) else (diff, 0) in
        sub_abs_loop fuel' (S i) borrow
          (remove_leading_zeroes
             (mkBigInteger (<[i := u32 diff]> (m_digits this)) (m_negative this)))
          other
    end
  else Some this.

(** The inner loop of [operator*=], for limb [x = m_digits[i]]. *)
Fixpoint mul_inner (fuel : nat) (i j : nat) (carry : Z) (x : Z)
    (other result : list Z) : option (list Z) :=
  if (j <? length other)%nat || negb (carry =? 0) then
    match fuel with
    | O => None
    | S fuel' =>
        r ← result !! (i + j)%nat;
        let product := u64 (u64 (r + carry) + u64 (x * default 0 (other !! j))) in
        mul_inner fuel' i (S j) (product / CELL_BASE) x other
          (<[(i + j)%nat := u32 (product mod CELL_BASE)]> result)
    end
  else Some result.

(** The loop of [BigInteger(int)]: [num] is an [int], [CELL_BASE] a
    [uint32_t], so both operations are done on [unsigned]. *)
Fixpoint int_limbs (fuel : nat) (num : Z) (digits : list Z) : option (list Z) :=
  if num >? 0 then
    match fuel with
    | O => None
    | S fuel' =>
        int_limbs fuel' (i32 (u32 num / CELL_BASE))
          (digits ++ [u32 num mod CELL_BASE])
    end
  else Some digits.

(** The limb-by-limb loop of [operator<], from index [k - 1] down to 0, on
    vectors of equal size. *)
Fixpoint less_loop (k : nat) (negative : bool) (left right : list Z) : bool :=
  match k with
  | O => false
  | S i =>
      match left !! i, right !! i with
      | Some x, Some y =>
          if negb (x =? y) then
            let less := x <? y in
            if negative then negb less else less
          else less_loop i negative left right
      | _, _ => false
      end
  end.

(** [operator==], [operator!=], [operator<] and the comparisons derived
    from them. *)
Definition operator_eq (left right : BigInteger) : bool :=
  bool_decide (m_negative left = m_negative right) &&
  bool_decide (m_digits left = m_digits right).

Definition operator_ne (left right : BigInteger) : bool :=
  negb (operator_eq left right).

Definition operator_lt (left right : BigInteger) : bool :=
  if negb (Bool.eqb (m_negative left) (m_negative right)) then m_negative left
  else if negb (length (m_digits left) =? length (m_digits right))%nat then
    let less := (length (m_digits left) <? length (m_digits right))%nat in
    if m_negative left then negb less else less
  else less_loop (length (m_digits left)) (m_negative left)
         (m_digits left) (m_digits right).

Definition operator_gt (left right : BigInteger) : bool := operator_lt right left.
Definition operator_le (left right : BigInteger) : bool := negb (operator_gt left right).

(** [BigInteger()]. *)
Definition BigInteger_default : BigInteger := mkBigInteger [0] false.

Definition is_zero (x : BigInteger) : bool :=
  (length (m_digits x) =? 1)%nat && (default 1 (m_digits x !! O) =? 0).

Definition abs (x : BigInteger) : BigInteger :=
  mkBigInteger (m_digits x) false.

Section WithFuel.

Variable fuel : nat.

(** [add_abs]: the receiver is resized to the longer operand first. *)
Definition add_abs (this other : BigInteger) : option BigInteger :=
  let max_size := Nat.max (length (m_digits other)) (length (m_digits this)) in
  digits ← add_abs_loop fuel 0 max_size 0 (resize max_size 0 (m_digits this))
             (m_digits other);
  Some (remove_leading_zeroes (mkBigInteger digits (m_negative this))).

(** [sub_abs]. *)
Definition sub_abs (this other : BigInteger) : option BigInteger :=
  sub_abs_loop fuel 0 0 this (m_digits other).

(** [BigInteger(int num)]; [std::abs(INT_MIN)] has no defined result. *)
Definition BigInteger_of_int (num : Z) : option BigInteger :=
  if num =? INT_MIN then None
  else
    let negative := num <? 0 in
    let num := Z.abs num in
    if num =? 0 then Some (mkBigInteger [0] negative)
    else
      digits ← int_limbs fuel num [];
      Some (mkBigInteger digits negative).

(** [operator+=]. *)
Definition add_assign (this other : BigInteger) : option BigInteger :=
  if Bool.eqb (m_negative this) (m_negative other) then add_abs this other
  else if operator_lt (abs this) (abs other) then
    temp ← sub_abs other this;
    Some (mkBigInteger (m_digits temp) (m_negative other))
  else sub_abs this other.

(** [operator-=]: the receiver is negated, [other] is added, and the sum is
    negated back. *)
Definition sub_assign (this other : BigInteger) : option BigInteger :=
  this ← (if operator_eq other this then
            Some (mkBigInteger [0] (m_negative this))
          else
            this ← add_assign (mkBigInteger (m_digits this) (negb (m_negative this))) other;
            Some (mkBigInteger (m_digits this) (negb (m_negative this))));
  Some (if is_zero this then mkBigInteger (m_digits this) false else this).

(** The outer loop of [operator*=] over the limbs [m_digits[i..]] of the
    left operand. *)
Fixpoint mul_outer (i : nat) (mine other result : list Z) : option (list Z) :=
  match mine with
  | [] => Some result
  | x :: mine' =>
      result ← mul_inner fuel i 0 0 x other result;
      mul_outer (S i) mine' other result
  end.

(** [operator*=]. *)
Definition mul_assign (this other : BigInteger) : option BigInteger :=
  let result_digits :=
    resize (length (m_digits this) + length (m_digits other) + 1)%nat 0
      (m_digits BigInteger_default) in
  let result_negative := negb (Bool.eqb (m_negative this) (m_negative other)) in
  digits ← mul_outer 0 (m_digits this) (m_digits other) result_digits;
  Some (remove_leading_zeroes (mkBigInteger digits result_negative)).

(** The binary search of [operator/=] for the quotient limb: the largest
    [mid] with [b * mid <= curValue]. *)
Fixpoint quotient_search (n : nat) (b curValue : BigInteger)
    (left right val : Z) : option Z :=
  if left <=? right then
    match n with
    | O => None
    | S n' =>
        let mid := Z.shiftr (i32 (left + right)) 1 in
        mid_big ← BigInteger_of_int mid;
        cur ← mul_assign b mid_big;
        if operator_le cur curValue then
          quotient_search n' b curValue (i32 (mid + 1)) right mid
        else
          quotient_search n' b curValue left (i32 (mid - 1)) val
    end
  else Some val.

(** The long-division loop of [operator/=], for [iter = k - 1] down to 0. *)
Fixpoint div_loop (k : nat) (a b curValue result : BigInteger) : option BigInteger :=
  match k with
  | O => Some result
  | S iter =>
      let curValue := shift_left curValue in
      a_iter ← m_digits a !! iter;
      let curValue :=
        match m_digits curValue with
        | [] => mkBigInteger [a_iter] (m_negative curValue)
        | _ :: _ => mkBigInteger (<[O := a_iter]> (m_digits curValue)) (m_negative curValue)
        end in
      let curValue := remove_leading_zeroes curValue in
      val ← quotient_search fuel b curValue 0 (i32 (CELL_BASE - 1)) 0;
      let result :=
        if (iter <? length (m_digits result))%nat then
          mkBigInteger (<[iter := u32 val]> (m_digits result)) (m_negative result)
        else
          mkBigInteger (m_digits result ++ [u32 val]) (m_negative result) in
      val_big ← BigInteger_of_int val;
      prod ← mul_assign b val_big;
      curValue ← sub_assign curValue prod;
      div_loop iter a b curValue result
  end.

(** [operator/=].  The long division is reached with [a > b] only, where
    [a] has at least as many limbs as [b]. *)
Definition div_assign (this other : BigInteger) : option BigInteger :=
  let result_negative := negb (Bool.eqb (m_negative this) (m_negative other)) in
  let a := abs this in
  let b := abs other in
  if operator_eq a b then Some (mkBigInteger [1] result_negative)
  else if operator_lt a b then BigInteger_of_int 0
  else
    let result :=
      mkBigInteger
        (resize (length (m_digits a) - length (m_digits b) + 1)%nat 0
           (m_digits BigInteger_default))
        result_negative in
    result ← div_loop (length (m_digits a)) a b BigInteger_default result;
    Some (remove_leading_zeroes result).

(** [operator%=]. *)
Definition mod_assign (this other : BigInteger) : option BigInteger :=
  div_res ← div_assign this other;
  prod ← mul_assign div_res other;
  sub_assign this prod.

(** Unary [operator-]. *)
Definition operator_neg (x : BigInteger) : option BigInteger :=
  zero ← BigInteger_of_int 0;
  Some (if operator_ne x zero then mkBigInteger (m_digits x) (negb (m_negative x))
        else x).

(** *** Text conversion

    A [std::string] is a list of characters.  The library functions the
    class calls are modelled on the inputs it gives them: [std::to_string]
    and [operator<<] on an unsigned value print its decimal digits,
    [std::stoul] reads a string of decimal digits, [isdigit] holds of the
    characters '0' to '9'. *)

Definition digit_char (d : Z) : ascii := ascii_of_nat (48 + Z.to_nat d).

Fixpoint to_string_loop (n : nat) (v : Z) (acc : list ascii) : list ascii :=
  match n with
  | O => acc
  | S n' =>
      let acc := digit_char (v mod 10) :: acc in
      if v / 10 =? 0 then acc else to_string_loop n' (v / 10) acc
  end.

Definition to_string (v : Z) : list ascii := to_string_loop 20 v [].

Definition isdigit (c : ascii) : bool :=
  (48 <=? nat_of_ascii c)%nat && (nat_of_ascii c <=? 57)%nat.

Definition digit_val (c : ascii) : Z := Z.of_nat (nat_of_ascii c) - 48.

Definition stoul (part : list ascii) : Z :=
  foldl (λ acc c, acc * 10 + digit_val c) 0 part.

Definition substr (s : list ascii) (pos len : nat) : list ascii :=
  take len (drop pos s).

Definition is_sign (c : ascii) : bool :=
  Ascii.eqb c "-" || Ascii.eqb c "+".

Definition is_correct_str (s : list ascii) : bool :=
  match s with
  | [] => true
  | c :: _ =>
      let start := if is_sign c then 1%nat else 0%nat in
      forallb isdigit (drop start s)
  end.

(** The chunking loop of [BigInteger(const std::string&)]: [i] runs from the
    last character down to [start] in steps of [CELL_LEN]. *)
Fixpoint parse_loop (n : nat) (s : list ascii) (start i : Z)
    (digits : list Z) : option (list Z) :=
  if i >=? start then
    match n with
    | O => None
    | S n' =>
        let end_ := Z.max start (i + 1 - CELL_LEN) in
        let part := substr s (Z.to_nat end_) (Z.to_nat (i - end_ + 1)) in
        parse_loop n' s start (i - CELL_LEN) (digits ++ [u32 (stoul part)])
    end
  else Some digits.

(** [BigInteger(const std::string&)]. *)
Definition BigInteger_of_string (s : list ascii) : option BigInteger :=
  if bool_decide (s = []) || negb (is_correct_str s) then Some BigInteger_default
  else
    let '(negative, start) :=
      match s with
      | c :: _ =>
          if Ascii.eqb c "-" then (true, 1)
          else if Ascii.eqb c "+" then (false, 1)
          else (false, 0)
      | [] => (false, 0)
      end in
    digits ← parse_loop fuel s start (Z.of_nat (length s) - 1) [];
    let x := remove_leading_zeroes (mkBigInteger digits negative) in
    Some (match m_digits x with
          | [] => mkBigInteger [0] (m_negative x)
          | _ :: _ => x
          end).

(** The padded limbs of [toString], for [i = k - 1] down to 0. *)
Fixpoint toString_loop (k : nat) (digits : list Z) : option (list ascii) :=
  match k with
  | O => Some []
  | S i =>
      d ← digits !! i;
      let str := to_string d in
      if (Z.to_nat CELL_LEN <? length str)%nat then None
      else
        rest ← toString_loop i digits;
        Some (replicate (Z.to_nat CELL_LEN - length str) "0"%char ++ str ++ rest)
  end.

(** [toString]; [back()] of an empty vector and a limb of more than nine
    digits have no result. *)
Definition toString (x : BigInteger) : option (list ascii) :=
  if is_zero x then Some ["0"%char]
  else
    back ← last (m_digits x);
    rest ← toString_loop (length (m_digits x) - 1) (m_digits x);
    Some ((if m_negative x then ["-"%char] else []) ++ to_string back ++ rest).

(** ** The Rational class *)

Record Rational : Type := mkRational {
  numerator : BigInteger;
  denominator : BigInteger
}.

(** The right operand of a compound assignment is a reference: to another
    object, or to the receiver itself as in [r /= r].  A read through the
    reference sees the fields as they are at that moment. *)
Inductive reference : Type :=
  | OtherObject (other : Rational)
  | SameObject.

Definition deref (this : Rational) (other : reference) : Rational :=
  match other with
  | OtherObject other => other
  | SameObject => this
  end.

(** The Euclidean loop of [Rational::gcd]; each round is [a %= b] followed
    by [std::swap(a, b)]. *)
Fixpoint gcd_loop (n : nat) (a b : BigInteger) : option BigInteger :=
  zero ← BigInteger_of_int 0;
  if operator_ne b zero then
    match n with
    | O => None
    | S n' =>
        a ← mod_assign a b;
        gcd_loop n' b a
    end
  else Some a.

Definition gcd (a b : BigInteger) : option BigInteger :=
  gcd_loop fuel (abs a) (abs b).

Definition normalize (r : Rational) : option Rational :=
  zero ← BigInteger_of_int 0;
  r ← (if operator_lt (denominator r) zero then
         num ← operator_neg (numerator r);
         den ← operator_neg (denominator r);
         Some (mkRational num den)
       else Some r);
  g ← gcd (numerator r) (denominator r);
  if operator_ne g zero then
    num ← div_assign (numerator r) g;
    den ← div_assign (denominator r) g;
    Some (mkRational num den)
  else Some r.




Definition Rational_of_pair (num denom : BigInteger) : option Rational :=
  normalize (mkRational num denom).




(** [operator/=] of Rational: [numerator *= other.denominator] runs first,
    and [denominator *= other.numerator] reads [other.numerator] after it,
    which on the receiver itself is the numerator just written. *)
Definition Rational_div_assign (this : Rational) (other : reference)
    : option Rational :=
  num ← mul_assign (numerator this) (denominator (deref this other));
  let this := mkRational num (denominator this) in
  den ← mul_assign (denominator this) (numerator (deref this other));
  let this := mkRational (numerator this) den in
  normalize this.




End WithFuel.

(** ** Operators defined from the compound assignments *)

(** The binary [operator+], [operator-], [operator*], [operator/] and
    [operator%]: the left operand is taken by value, the compound assignment
    runs on that copy, and the copy is returned. *)
Definition operator_add (fuel : nat) (left right : BigInteger) : option BigInteger :=
  add_assign fuel left right.
Definition operator_mul (fuel : nat) (left right : BigInteger) : option BigInteger :=
  mul_assign fuel left right.
Definition operator_div (fuel : nat) (left right : BigInteger) : option BigInteger :=
  div_assign fuel left right.
Definition operator_mod (fuel : nat) (left right : BigInteger) : option BigInteger :=
  mod_assign fuel left right.

(** Prefix [operator++] and [operator--]: [*this += 1] and [*this -= 1], the
    [int] converted by [BigInteger(int)]. *)
Definition operator_pre_inc (fuel : nat) (this : BigInteger) : option BigInteger :=
  one ← BigInteger_of_int fuel 1;
  add_assign fuel this one.

Definition operator_pre_dec (fuel : nat) (this : BigInteger) : option BigInteger :=
  one ← BigInteger_of_int fuel 1;
  sub_assign fuel this one.

(** Postfix [operator++] and [operator--]: the pair of the value returned
    (the copy [temp] taken first) and the receiver afterwards. *)
Definition operator_post_inc (fuel : nat) (this : BigInteger)
    : option (BigInteger * BigInteger) :=
  let temp := this in
  this ← operator_pre_inc fuel this;
  Some (temp, this).

Definition operator_post_dec (fuel : nat) (this : BigInteger)
    : option (BigInteger * BigInteger) :=
  let temp := this in
  this ← operator_pre_dec fuel this;
  Some (temp, this).

(** [explicit operator bool] and [isNegative]. *)
Definition operator_bool (x : BigInteger) : bool := negb (is_zero x).
Definition isNegative (x : BigInteger) : bool := m_negative x.

(** [operator""_bi(unsigned long long)]: the number goes through
    [std::to_string] and the string constructor. *)
Definition operator_bi (fuel : nat) (num : Z) : option BigInteger :=
  BigInteger_of_string fuel (to_string num).

(** ** The remaining operators of Rational *)









Definition Rational_operator_div (fuel : nat) (left right : Rational) : option Rational :=
  Rational_div_assign fuel left (OtherObject right).

(** * Specification vocabulary *)

(** The magnitude a limb vector stands for, least significant limb first. *)
Fixpoint limbs_value (l : list Z) : Z :=
  match l with
  | [] => 0
  | d :: l' => d + CELL_BASE * limbs_value l'
  end.

(** The integer a BigInteger stands for. *)
Definition value (x : BigInteger) : Z :=
  if m_negative x then - limbs_value (m_digits x) else limbs_value (m_digits x).

(** Every limb is below the base. *)
Definition limbs_okb (l : list Z) : bool :=
  forallb (λ d, (0 <=? d) && (d <? CELL_BASE)) l.

(** No most-significant zero limb, except in the one-limb zero. *)
Definition normalizedb (l : list Z) : bool :=
  match last l with
  | Some d => negb (d =? 0) || (length l =? 1)%nat
  | None => false
  end.

(** The representation of the data model without the rule on the sign of
    zero. *)
Definition wfb (x : BigInteger) : bool :=
  limbs_okb (m_digits x) && normalizedb (m_digits x).

(** The full representation invariant: limbs in range, normalized
    magnitude, and no negative zero. *)
Definition validb (x : BigInteger) : bool :=
  wfb x && negb (is_zero x && m_negative x).

Definition limbs_ok (l : list Z) : Prop := limbs_okb l = true.
Definition normalized (l : list Z) : Prop := normalizedb l = true.
Definition wf (x : BigInteger) : Prop := wfb x = true.
Definition valid (x : BigInteger) : Prop := validb x = true.

(** [returns o z]: the computation [o] produces a valid BigInteger that
    stands for [z]. *)
Definition returns (o : option BigInteger) (z : Z) : Prop :=
  ∃ r, o = Some r ∧ valid r ∧ value r = z.


(** The invariant of a Rational: both parts are valid BigIntegers, the
    denominator is strictly positive and the fraction is in lowest terms. *)
Definition lowest_termsb (r : Rational) : bool :=
  validb (numerator r) && validb (denominator r) &&
  (0 <? value (denominator r)) &&
  (Z.gcd (Z.abs (value (numerator r))) (Z.abs (value (denominator r))) =? 1).

Definition lowest_terms (r : Rational) : Prop := lowest_termsb r = true.






Definition limbs_of (r : Rational) : nat :=
  (length (m_digits (numerator r)) + length (m_digits (denominator r)))%nat.



(** A string of decimal digits: every character is a digit. *)
Definition all_digits (s : list ascii) : Prop := forallb isdigit s = true.

(** A digit string without a leading zero, or the string "0". *)
Definition no_leading_zero (s : list ascii) : bool :=
  match s with
  | [] => false
  | c :: rest => negb (Ascii.eqb c "0") || bool_decide (rest = [])
  end.

(** The canonical decimal form of the spec: "0", or an optional minus
    followed by digits that do not start with a zero. *)
Definition canonical_text (s : list ascii) : bool :=
  match s with
  | [] => false
  | c :: rest =>
      if Ascii.eqb c "-" then
        forallb isdigit rest &&
        match rest with
        | d :: _ => negb (Ascii.eqb d "0")
        | [] => false
        end
      else forallb isdigit s && no_leading_zero s
  end.

(** The sign the string constructor reads off the first character. *)
Definition is_minus (sign : list ascii) : bool :=
  match sign with
  | c :: _ => Ascii.eqb c "-"
  | [] => false
  end.

(** A string literal of the source as a list of characters. *)
Definition literal (s : string) : list ascii := list_ascii_of_string s.



(** * Lemmas *)

(** One step of a computation in the option monad. *)
Ltac step H := rewrite H; cbn [mbind option_bind numerator denominator].

(** ** Machine integers *)

Lemma u32_small z : 0 ≤ z < 2 ^ 32 → u32 z = z.
Proof. intros H. unfold u32. by apply Z.mod_small. Qed.

Lemma u64_small z : 0 ≤ z < 2 ^ 64 → u64 z = z.
Proof. intros H. unfold u64. by apply Z.mod_small. Qed.

Lemma i32_small z : - 2 ^ 31 ≤ z < 2 ^ 31 → i32 z = z.
Proof. intros H. unfold i32. rewrite Z.mod_small; lia. Qed.

Lemma CELL_BASE_eq : CELL_BASE = 1000000000.
Proof. reflexivity. Qed.

Lemma CELL_BASE_pos : 0 < CELL_BASE.
Proof. reflexivity. Qed.

Lemma pow_base_pos n : 0 < CELL_BASE ^ Z.of_nat n.
Proof. apply Z.pow_pos_nonneg; [reflexivity | lia]. Qed.

Lemma pow_base_S n : CELL_BASE ^ Z.of_nat (S n) = CELL_BASE * CELL_BASE ^ Z.of_nat n.
Proof. rewrite Nat2Z.inj_succ, Z.pow_succ_r; lia. Qed.

Lemma pow_base_add n m :
  CELL_BASE ^ Z.of_nat (n + m) = CELL_BASE ^ Z.of_nat n * CELL_BASE ^ Z.of_nat m.
Proof. rewrite Nat2Z.inj_add, Z.pow_add_r; lia. Qed.

Lemma pow_base_le n m : (n ≤ m)%nat → CELL_BASE ^ Z.of_nat n ≤ CELL_BASE ^ Z.of_nat m.
Proof. intros H. apply Z.pow_le_mono_r; [reflexivity | lia]. Qed.

Global Opaque CELL_BASE.

(** ** Limb vectors *)

Lemma limbs_ok_Forall l : limbs_ok l ↔ Forall (λ d, 0 ≤ d < CELL_BASE) l.
Proof.
  unfold limbs_ok, limbs_okb. rewrite forallb_forall, Forall_forall.
  split; intros H d Hd.
  - apply list_elem_of_In, H in Hd. lia.
  - apply list_elem_of_In, H in Hd. lia.
Qed.


Lemma limbs_ok_cons d l : limbs_ok (d :: l) ↔ (0 ≤ d < CELL_BASE) ∧ limbs_ok l.
Proof.
  rewrite !limbs_ok_Forall. split.
  - by inversion 1.
  - intros [? ?]. by constructor.
Qed.

Lemma limbs_ok_app l1 l2 : limbs_ok (l1 ++ l2) ↔ limbs_ok l1 ∧ limbs_ok l2.
Proof. rewrite !limbs_ok_Forall. apply Forall_app. Qed.

Lemma limbs_ok_lookup l i d : limbs_ok l → l !! i = Some d → 0 ≤ d < CELL_BASE.
Proof.
  rewrite limbs_ok_Forall, Forall_lookup. intros H Hd. exact (H i d Hd).
Qed.

Lemma limbs_ok_insert l i d :
  limbs_ok l → 0 ≤ d < CELL_BASE → limbs_ok (<[i := d]> l).
Proof. rewrite !limbs_ok_Forall. intros H Hd. by apply Forall_insert. Qed.

Lemma limbs_ok_take l n : limbs_ok l → limbs_ok (take n l).
Proof. rewrite !limbs_ok_Forall. apply Forall_take. Qed.

Lemma limbs_ok_drop l n : limbs_ok l → limbs_ok (drop n l).
Proof. rewrite !limbs_ok_Forall. apply Forall_drop. Qed.

Lemma limbs_ok_replicate n : limbs_ok (replicate n 0).
Proof.
  rewrite limbs_ok_Forall. apply Forall_replicate.
  pose proof CELL_BASE_pos. lia.
Qed.

Lemma limbs_value_app l1 l2 :
  limbs_value (l1 ++ l2) =
  limbs_value l1 + CELL_BASE ^ Z.of_nat (length l1) * limbs_value l2.
Proof.
  induction l1 as [|d l1 IH]; simpl length; [simpl; lia|].
  rewrite pow_base_S. simpl. rewrite IH. lia.
Qed.

Lemma limbs_value_split i l :
  limbs_value l =
  limbs_value (take i l) + CELL_BASE ^ Z.of_nat (Nat.min i (length l)) * limbs_value (drop i l).
Proof.
  rewrite <- (take_drop i l) at 1. rewrite limbs_value_app, length_take. done.
Qed.

Lemma limbs_value_bound l :
  limbs_ok l → 0 ≤ limbs_value l < CELL_BASE ^ Z.of_nat (length l).
Proof.
  induction l as [|d l IH]; intros H.
  - simpl. lia.
  - apply limbs_ok_cons in H as [Hd Hl]. specialize (IH Hl).
    simpl length. rewrite pow_base_S. simpl. pose proof CELL_BASE_pos. nia.
Qed.

Lemma limbs_value_nonneg l : limbs_ok l → 0 ≤ limbs_value l.
Proof. intros H. apply limbs_value_bound in H. lia. Qed.

Lemma limbs_value_replicate n : limbs_value (replicate n 0) = 0.
Proof. induction n as [|n IH]; simpl; [done|]. rewrite IH. lia. Qed.

Lemma limbs_value_insert l i d v :
  l !! i = Some d →
  limbs_value (<[i := v]> l) = limbs_value l + (v - d) * CELL_BASE ^ Z.of_nat i.
Proof.
  revert i. induction l as [|x l IH]; intros [|i] Hi; try done.
  - simpl in Hi. injection Hi as ->. simpl. lia.
  - simpl in Hi. rewrite pow_base_S. simpl. rewrite (IH i Hi). lia.
Qed.

Lemma limbs_value_drop_lookup l i d :
  l !! i = Some d →
  limbs_value (drop i l) = d + CELL_BASE * limbs_value (drop (S i) l).
Proof.
  intros Hi. by rewrite (drop_S l d i Hi).
Qed.

Lemma limbs_value_drop_ge l i :
  (length l ≤ i)%nat → limbs_value (drop i l) = 0.
Proof. intros H. by rewrite drop_ge. Qed.

Lemma limbs_value_zero l :
  limbs_ok l → limbs_value l = 0 → Forall (λ d, d = 0) l.
Proof.
  induction l as [|d l IH]; intros H Hv; [constructor|].
  apply limbs_ok_cons in H as [Hd Hl]. simpl in Hv.
  pose proof (limbs_value_nonneg l Hl). pose proof CELL_BASE_pos.
  constructor; [nia|]. apply IH; [done|nia].
Qed.

Lemma limbs_value_all_zero l : Forall (λ d, d = 0) l → limbs_value l = 0.
Proof.
  induction 1 as [|d l -> _ IH]; simpl; [done|]. rewrite IH. lia.
Qed.

Lemma base_decomp_unique B d1 d2 v1 v2 :
  0 ≤ d1 < B → 0 ≤ d2 < B → d1 + B * v1 = d2 + B * v2 → d1 = d2 ∧ v1 = v2.
Proof.
  intros H1 H2 H.
  assert (v1 = v2); [|subst; lia].
  destruct (Z.lt_trichotomy v1 v2) as [?|[?|?]]; [nia|done|nia].
Qed.

Lemma limbs_value_length_inj l1 l2 :
  limbs_ok l1 → limbs_ok l2 → length l1 = length l2 →
  limbs_value l1 = limbs_value l2 → l1 = l2.
Proof.
  revert l2. induction l1 as [|d1 l1 IH]; intros [|d2 l2] H1 H2 Hlen Hv; try done.
  apply limbs_ok_cons in H1 as [Hd1 Hl1]. apply limbs_ok_cons in H2 as [Hd2 Hl2].
  simpl in Hv. simpl in Hlen.
  destruct (base_decomp_unique _ _ _ _ _ Hd1 Hd2 Hv) as [-> Hv'].
  f_equal. apply IH; [done..|lia|done].
Qed.

Lemma normalized_inv l :
  normalized l → ∃ l' d, l = l' ++ [d] ∧ (d ≠ 0 ∨ l' = []).
Proof.
  unfold normalized, normalizedb. intros H.
  destruct (last l) as [d|] eqn:Hlast; [|done].
  apply last_Some in Hlast as [l' ->]. exists l', d. split; [done|].
  rewrite length_app in H. simpl in H.
  destruct (Z.eqb_spec d 0) as [->|Hd]; [|by left].
  right. simpl in H. destruct l'; [done|]. simpl in H.
  apply Nat.eqb_eq in H. lia.
Qed.

Lemma normalized_snoc l d : d ≠ 0 → normalized (l ++ [d]).
Proof.
  intros Hd. unfold normalized, normalizedb. rewrite last_snoc.
  destruct (Z.eqb_spec d 0); done.
Qed.

Lemma normalized_nonempty l : normalized l → l ≠ [].
Proof. by intros H ->. Qed.

Lemma normalized_lower l :
  limbs_ok l → normalized l →
  l = [0] ∨ CELL_BASE ^ Z.of_nat (length l - 1) ≤ limbs_value l.
Proof.
  intros Hok Hn. apply normalized_inv in Hn as (l' & d & -> & Hd).
  apply limbs_ok_app in Hok as [Hl' Hd'].
  apply limbs_ok_cons in Hd' as [Hd' _].
  destruct (decide (d = 0)) as [->|Hne].
  - destruct Hd as [?| ->]; [done|]. by left.
  - right. rewrite limbs_value_app, length_app. simpl.
    replace (length l' + 1 - 1)%nat with (length l') by lia.
    pose proof (limbs_value_nonneg l' Hl'). pose proof (pow_base_pos (length l')).
    nia.
Qed.

Lemma limbs_value_inj l1 l2 :
  limbs_ok l1 → limbs_ok l2 → normalized l1 → normalized l2 →
  limbs_value l1 = limbs_value l2 → l1 = l2.
Proof.
  intros H1 H2 N1 N2 Hv.
  assert (∀ a b, limbs_ok a → limbs_ok b → normalized a → normalized b →
            limbs_value a = limbs_value b → (length a < length b)%nat → False) as Hlt.
  { intros a b Ha Hb Na Nb Hab Hlen.
    pose proof (limbs_value_bound a Ha) as Ba.
    destruct (normalized_lower b Hb Nb) as [->|Hlow].
    - simpl in Hlen. apply normalized_nonempty in Na. destruct a; simpl in *; [done|lia].
    - pose proof (pow_base_le (length a) (length b - 1) ltac:(lia)). lia. }
  apply limbs_value_length_inj; try done.
  destruct (Nat.lt_total (length l1) (length l2)) as [Hl|[Hl|Hl]]; [|done|].
  - destruct (Hlt l1 l2); done.
  - destruct (Hlt l2 l1); done.
Qed.

(** ** [remove_leading_zeroes] *)

Lemma find_last_nonzero_None l :
  find_last_nonzero l = None → Forall (λ d, d = 0) l.
Proof.
  induction l as [|d l IH]; simpl; [constructor|].
  destruct (find_last_nonzero l); [done|].
  destruct (Z.eqb_spec d 0) as [->|]; [|done]. intros _. constructor; auto.
Qed.

Lemma find_last_nonzero_Some l k :
  find_last_nonzero l = Some k →
  ∃ d, l !! k = Some d ∧ d ≠ 0 ∧ Forall (λ d, d = 0) (drop (S k) l).
Proof.
  revert k. induction l as [|x l IH]; intros k; simpl; [done|].
  destruct (find_last_nonzero l) as [k'|] eqn:Hf.
  - intros [= <-]. destruct (IH k' eq_refl) as (d & Hd & Hne & Hz).
    exists d. simpl. done.
  - destruct (Z.eqb_spec x 0) as [->|Hx]; [done|]. intros [= <-].
    exists x. simpl. rewrite drop_0. split_and!; [done..|].
    by apply find_last_nonzero_None.
Qed.

Lemma find_last_nonzero_snoc l d :
  d ≠ 0 → find_last_nonzero (l ++ [d]) = Some (length l).
Proof.
  intros Hd. induction l as [|x l IH]; simpl.
  - destruct (Z.eqb_spec d 0); done.
  - by rewrite IH.
Qed.

Lemma remove_leading_zeroes_nil neg :
  remove_leading_zeroes (mkBigInteger [] neg) = mkBigInteger [] neg.
Proof. done. Qed.

Lemma remove_leading_zeroes_spec x :
  m_digits x ≠ [] → limbs_ok (m_digits x) →
  let r := remove_leading_zeroes x in
  valid r ∧ value r = value x ∧
  limbs_value (m_digits r) = limbs_value (m_digits x) ∧
  (length (m_digits r) ≤ length (m_digits x))%nat ∧
  (limbs_value (m_digits x) ≠ 0 → m_negative r = m_negative x).
Proof.
  destruct x as [l neg]. simpl. intros Hne Hok.
  unfold remove_leading_zeroes. simpl.
  destruct l as [|x0 l0] eqn:El; [done|]. rewrite <- El in *. clear Hne.
  destruct (find_last_nonzero l) as [k|] eqn:Hf.
  - apply find_last_nonzero_Some in Hf as (d & Hd & Hdne & Hz).
    assert (Hk : (k < length l)%nat) by (by eapply lookup_lt_Some).
    assert (Hv : limbs_value (take (S k) l) = limbs_value l).
    { rewrite (limbs_value_split (S k) l), (limbs_value_all_zero _ Hz). lia. }
    assert (Ht : take (S k) l = take k l ++ [d]) by (by apply take_S_r).
    split_and!; simpl.
    + unfold valid, validb, wfb, is_zero. simpl.
      pose proof (limbs_ok_take l (S k) Hok) as Hok'. rewrite Hok'. simpl.
      rewrite Ht. pose proof (normalized_snoc (take k l) d Hdne) as Hn.
      rewrite Hn. simpl. rewrite length_app, length_take. simpl.
      destruct (Nat.eqb_spec (k `min` length l + 1) 1); [|done].
      assert (k = 0)%nat as -> by lia. simpl.
      destruct (Z.eqb_spec d 0); done.
    + unfold value. simpl. by rewrite Hv.
    + done.
    + rewrite length_take. lia.
    + done.
  - apply find_last_nonzero_None in Hf.
    pose proof (limbs_value_all_zero _ Hf) as Hv.
    split_and!; simpl; try done.
    + unfold value. simpl. rewrite Hv. by destruct neg.
    + subst l. simpl. lia.
Qed.

Lemma remove_leading_zeroes_id x :
  normalized (m_digits x) → (m_digits x ≠ [0] ∨ m_negative x = false) →
  remove_leading_zeroes x = x.
Proof.
  destruct x as [l neg]. simpl. intros Hn Hz.
  apply normalized_inv in Hn as (l' & d & -> & Hd).
  unfold remove_leading_zeroes. simpl.
  assert (Hmatch : ∀ (A : Type) (u v : A),
            match l' ++ [d] with [] => u | _ :: _ => v end = v)
    by (intros; by destruct l').
  rewrite Hmatch. clear Hmatch.
  destruct (decide (d = 0)) as [->|Hne].
  - destruct Hd as [?| ->]; [done|]. simpl in *. destruct Hz as [?| ->]; done.
  - rewrite find_last_nonzero_snoc by done.
    rewrite take_ge; [done|]. rewrite length_app. simpl. lia.
Qed.

(** ** The representation invariant *)

Lemma wf_inv x : wf x ↔ limbs_ok (m_digits x) ∧ normalized (m_digits x).
Proof. unfold wf, wfb, limbs_ok, normalized. by rewrite andb_true_iff. Qed.

Lemma is_zero_spec x : is_zero x = true ↔ m_digits x = [0].
Proof.
  unfold is_zero. destruct (m_digits x) as [|d [|d' l]]; simpl; try done.
  destruct (Z.eqb_spec d 0) as [->|]; split; congruence.
Qed.

Lemma wf_zero x :
  wf x → limbs_value (m_digits x) = 0 ↔ m_digits x = [0].
Proof.
  intros [Hok Hn]%wf_inv. split; [|by intros ->].
  intros Hv. destruct (normalized_lower _ Hok Hn) as [?|Hlow]; [done|].
  pose proof (pow_base_pos (length (m_digits x) - 1)). lia.
Qed.

Lemma valid_inv x :
  valid x ↔ wf x ∧ (m_digits x = [0] → m_negative x = false).
Proof.
  unfold valid, validb. rewrite andb_true_iff, negb_true_iff, andb_false_iff.
  fold (wf x). split; intros [Hwf Hz]; (split; [done|]).
  - intros Hd%is_zero_spec. destruct Hz; congruence.
  - destruct (is_zero x) eqn:E; [|by left]. right. by apply Hz, is_zero_spec.
Qed.

Lemma valid_wf x : valid x → wf x.
Proof. by intros [? _]%valid_inv. Qed.

Lemma valid_limbs_ok x : valid x → limbs_ok (m_digits x).
Proof. by intros [? _]%valid_wf%wf_inv. Qed.

Lemma wf_limbs_ok x : wf x → limbs_ok (m_digits x).
Proof. by intros [? _]%wf_inv. Qed.

Lemma wf_nonempty x : wf x → m_digits x ≠ [].
Proof. intros [_ ?]%wf_inv. by apply normalized_nonempty. Qed.

Lemma wf_length x : wf x → (1 ≤ length (m_digits x))%nat.
Proof. intros H%wf_nonempty. destruct (m_digits x); simpl; [done|lia]. Qed.

Lemma wf_sign x neg : wf x → wf (mkBigInteger (m_digits x) neg).
Proof. done. Qed.

Lemma valid_abs x : wf x → valid (abs x).
Proof. intros H. apply valid_inv. split; [by apply wf_sign|done]. Qed.

Lemma value_abs x : value (abs x) = limbs_value (m_digits x).
Proof. done. Qed.

Lemma wf_valid_nonzero x :
  wf x → limbs_value (m_digits x) ≠ 0 → valid x.
Proof.
  intros Hwf Hne. apply valid_inv. split; [done|].
  intros Hz. destruct Hne. by apply wf_zero.
Qed.

Lemma value_sign x :
  valid x → (m_negative x = true ↔ value x < 0).
Proof.
  intros [Hwf Hz]%valid_inv. unfold value.
  pose proof (limbs_value_nonneg _ (wf_limbs_ok _ Hwf)) as Hnn.
  destruct (m_negative x) eqn:E; split; try done; try lia.
  intros _. assert (limbs_value (m_digits x) ≠ 0); [|lia].
  intros Hv%wf_zero; [|done]. by specialize (Hz Hv).
Qed.

Lemma value_magnitude x :
  wf x → limbs_value (m_digits x) = Z.abs (value x).
Proof.
  intros Hwf. pose proof (limbs_value_nonneg _ (wf_limbs_ok _ Hwf)).
  unfold value. destruct (m_negative x); lia.
Qed.

(** A valid BigInteger is the only representation of its value. *)
Lemma valid_inj a b : valid a → valid b → value a = value b → a = b.
Proof.
  intros Ha Hb Hv.
  pose proof (value_sign a Ha) as Sa. pose proof (value_sign b Hb) as Sb.
  assert (m_negative a = m_negative b) as Hs.
  { destruct (m_negative a), (m_negative b); try done.
    - assert (value a < 0) by by apply Sa. assert (¬ value b < 0) by (rewrite <- Sb; done). lia.
    - assert (value b < 0) by by apply Sb. assert (¬ value a < 0) by (rewrite <- Sa; done). lia. }
  apply valid_wf in Ha, Hb.
  assert (m_digits a = m_digits b) as Hd.
  { apply limbs_value_inj; try (by apply wf_inv).
    rewrite !value_magnitude by done. by rewrite Hv. }
  destruct a, b; simpl in *; congruence.
Qed.

(** ** Comparison *)

Lemma operator_eq_spec a b :
  valid a → valid b → operator_eq a b = bool_decide (value a = value b).
Proof.
  intros Ha Hb. unfold operator_eq.
  destruct (decide (value a = value b)) as [Hv|Hv].
  - rewrite (valid_inj a b Ha Hb Hv). rewrite !bool_decide_eq_true_2; done.
  - rewrite (bool_decide_eq_false_2 _ Hv). apply andb_false_iff.
    destruct (decide (m_negative a = m_negative b)) as [Hs|Hs];
      [right|left; by apply bool_decide_eq_false_2].
    apply bool_decide_eq_false_2. intros Hd. destruct Hv.
    unfold value. by rewrite Hs, Hd.
Qed.

Lemma operator_eq_true a b : operator_eq a b = true ↔ a = b.
Proof.
  unfold operator_eq. rewrite andb_true_iff, !bool_decide_eq_true.
  destruct a, b; simpl. split; [intros [-> ->]|intros [= -> ->]]; done.
Qed.

Lemma less_loop_spec k neg l r :
  limbs_ok l → limbs_ok r → (k ≤ length l)%nat → (k ≤ length r)%nat →
  less_loop k neg l r =
  if neg then limbs_value (take k r) <? limbs_value (take k l)
  else limbs_value (take k l) <? limbs_value (take k r).
Proof.
  intros Hl Hr. induction k as [|i IH]; intros Hkl Hkr.
  - simpl. by destruct neg.
  - simpl less_loop.
    destruct (lookup_lt_is_Some_2 l i ltac:(lia)) as [x Hx].
    destruct (lookup_lt_is_Some_2 r i ltac:(lia)) as [y Hy].
    rewrite Hx, Hy, (take_S_r l i x Hx), (take_S_r r i y Hy), !limbs_value_app.
    rewrite !length_take, !Nat.min_l by lia.
    pose proof (limbs_value_bound _ (limbs_ok_take l i Hl)) as Bl.
    pose proof (limbs_value_bound _ (limbs_ok_take r i Hr)) as Br.
    rewrite length_take, Nat.min_l in Bl, Br by lia.
    pose proof (limbs_ok_lookup _ _ _ Hl Hx). pose proof (limbs_ok_lookup _ _ _ Hr Hy).
    simpl limbs_value.
    destruct (Z.eqb_spec x y) as [->|Hxy]; simpl negb; cbv iota.
    + rewrite IH by lia. destruct neg.
      * destruct (Z.ltb_spec (limbs_value (take i r)) (limbs_value (take i l)));
          symmetry; [apply Z.ltb_lt|apply Z.ltb_ge]; lia.
      * destruct (Z.ltb_spec (limbs_value (take i l)) (limbs_value (take i r)));
          symmetry; [apply Z.ltb_lt|apply Z.ltb_ge]; lia.
    + destruct neg; destruct (Z.ltb_spec x y); simpl;
        symmetry; ((apply Z.ltb_lt; nia) || (apply Z.ltb_ge; nia)).
Qed.

Lemma limbs_value_length_lt l r :
  limbs_ok l → limbs_ok r → normalized l → normalized r →
  (length l < length r)%nat → limbs_value l < limbs_value r.
Proof.
  intros Hl Hr Nl Nr Hlen.
  pose proof (limbs_value_bound l Hl).
  destruct (normalized_lower r Hr Nr) as [->|Hlow].
  - apply normalized_nonempty in Nl. destruct l; simpl in *; [done|lia].
  - pose proof (pow_base_le (length l) (length r - 1) ltac:(lia)). lia.
Qed.

Lemma operator_lt_spec a b :
  valid a → valid b → operator_lt a b = (value a <? value b).
Proof.
  intros Ha Hb.
  pose proof (value_sign a Ha) as Sa. pose proof (value_sign b Hb) as Sb.
  pose proof (valid_wf _ Ha) as [Oa Na]%wf_inv.
  pose proof (valid_wf _ Hb) as [Ob Nb]%wf_inv.
  unfold operator_lt.
  destruct (m_negative a) eqn:Ea, (m_negative b) eqn:Eb; simpl.
  - assert (value a = - limbs_value (m_digits a)) as -> by (unfold value; by rewrite Ea).
    assert (value b = - limbs_value (m_digits b)) as -> by (unfold value; by rewrite Eb).
    destruct (Nat.eqb_spec (length (m_digits a)) (length (m_digits b))) as [Hlen|Hlen]; simpl.
    + rewrite less_loop_spec by (done || lia). rewrite Hlen at 1.
      rewrite !take_ge by lia.
      destruct (Z.ltb_spec (limbs_value (m_digits b)) (limbs_value (m_digits a)));
        symmetry; [apply Z.ltb_lt|apply Z.ltb_ge]; lia.
    + destruct (Nat.ltb_spec (length (m_digits a)) (length (m_digits b))); simpl; symmetry.
      * apply Z.ltb_ge. pose proof (limbs_value_length_lt _ _ Oa Ob Na Nb). lia.
      * apply Z.ltb_lt. pose proof (limbs_value_length_lt _ _ Ob Oa Nb Na). lia.
  - symmetry. apply Z.ltb_lt. assert (value a < 0) by (by apply Sa).
    assert (¬ value b < 0) by (rewrite <- Sb; done). lia.
  - symmetry. apply Z.ltb_ge. assert (value b < 0) by (by apply Sb).
    assert (¬ value a < 0) by (rewrite <- Sa; done). lia.
  - assert (value a = limbs_value (m_digits a)) as -> by (unfold value; by rewrite Ea).
    assert (value b = limbs_value (m_digits b)) as -> by (unfold value; by rewrite Eb).
    destruct (Nat.eqb_spec (length (m_digits a)) (length (m_digits b))) as [Hlen|Hlen]; simpl.
    + rewrite less_loop_spec by (done || lia). rewrite Hlen at 2.
      by rewrite !take_ge by lia.
    + destruct (Nat.ltb_spec (length (m_digits a)) (length (m_digits b))); simpl; symmetry.
      * apply Z.ltb_lt. pose proof (limbs_value_length_lt _ _ Oa Ob Na Nb). lia.
      * apply Z.ltb_ge. pose proof (limbs_value_length_lt _ _ Ob Oa Nb Na). lia.
Qed.

Lemma operator_le_spec a b :
  valid a → valid b → operator_le a b = (value a <=? value b).
Proof.
  intros Ha Hb. unfold operator_le, operator_gt. rewrite operator_lt_spec by done.
  destruct (Z.ltb_spec (value b) (value a)), (Z.leb_spec (value a) (value b)); simpl; lia.
Qed.

(** ** Magnitude addition: [add_abs] *)

Lemma CELL_BASE_bound : 1 < CELL_BASE < 2 ^ 30.
Proof. rewrite CELL_BASE_eq. lia. Qed.

Lemma limbs_value_drop_default l i :
  limbs_value (drop i l) =
  default 0 (l !! i) + CELL_BASE * limbs_value (drop (S i) l).
Proof.
  destruct (l !! i) as [d|] eqn:Hi.
  - by apply limbs_value_drop_lookup.
  - apply lookup_ge_None in Hi. rewrite !drop_ge by lia. simpl. lia.
Qed.

Lemma limbs_ok_default l i : limbs_ok l → 0 ≤ default 0 (l !! i) < CELL_BASE.
Proof.
  intros Hl. destruct (l !! i) as [d|] eqn:Hi; simpl.
  - by eapply limbs_ok_lookup.
  - pose proof CELL_BASE_pos. lia.
Qed.

Lemma div_mod_base s :
  s = CELL_BASE * (s / CELL_BASE) + s mod CELL_BASE ∧ 0 ≤ s mod CELL_BASE < CELL_BASE.
Proof.
  pose proof CELL_BASE_pos. split; [apply Z.div_mod; lia|apply Z.mod_pos_bound; lia].
Qed.

Lemma add_abs_loop_exit fuel i max_size digits other :
  (max_size ≤ i)%nat → add_abs_loop fuel i max_size 0 digits other = Some digits.
Proof.
  intros Hi. destruct fuel; simpl;
    (destruct (Nat.ltb_spec i max_size); [lia|done]).
Qed.

Lemma add_abs_loop_tail fuel i max_size carry digits other :
  (max_size ≤ i)%nat → i = length digits → (length other ≤ i)%nat →
  limbs_ok digits → 0 ≤ carry ≤ 1 → (1 ≤ fuel)%nat →
  ∃ r, add_abs_loop fuel i max_size carry digits other = Some r ∧
       limbs_ok r ∧ (length digits ≤ length r)%nat ∧
       limbs_value r = limbs_value digits + CELL_BASE ^ Z.of_nat i * carry.
Proof.
  intros Hi Hlen Hother Hok Hc Hfuel.
  pose proof CELL_BASE_bound as HB.
  destruct (decide (carry = 0)) as [->|Hne].
  { exists digits. rewrite add_abs_loop_exit by done. split_and!; [done..|lia]. }
  assert (carry = 1) as -> by lia.
  destruct fuel as [|fuel]; [lia|]. simpl add_abs_loop.
  destruct (Nat.ltb_spec i max_size); [lia|]. simpl.
  rewrite Hlen, Nat.eqb_refl.
  rewrite lookup_app_r, Nat.sub_diag by lia. simpl.
  rewrite (lookup_ge_None_2 other) by lia.
  rewrite (u64_small (0 + 1)) by lia. change (0 + 1) with 1.
  rewrite Z.div_small, Z.mod_small by lia.
  rewrite !u32_small by lia.
  rewrite add_abs_loop_exit by lia.
  eexists. split; [done|].
  rewrite insert_app_r_alt, Nat.sub_diag by lia. simpl.
  split_and!.
  - apply limbs_ok_app. split; [done|]. apply limbs_ok_cons. split; [lia|done].
  - rewrite length_app. lia.
  - rewrite limbs_value_app. simpl. lia.
Qed.

Lemma add_abs_loop_spec fuel i max_size carry digits other :
  (i ≤ max_size)%nat → length digits = max_size → (length other ≤ max_size)%nat →
  limbs_ok digits → limbs_ok other → 0 ≤ carry ≤ 1 → (max_size - i < fuel)%nat →
  ∃ r, add_abs_loop fuel i max_size carry digits other = Some r ∧
       limbs_ok r ∧ (max_size ≤ length r)%nat ∧
       limbs_value r =
       limbs_value digits +
       CELL_BASE ^ Z.of_nat i * (carry + limbs_value (drop i other)).
Proof.
  intros Hi Hlen Hother Hok Hoth. revert i carry digits Hi Hlen Hok.
  induction fuel as [|fuel IH]; intros i carry digits Hi Hlen Hok Hc Hfuel; [lia|].
  pose proof CELL_BASE_bound as HB.
  destruct (decide (i = max_size)) as [->|Hlt].
  { destruct (add_abs_loop_tail (S fuel) max_size max_size carry digits other)
      as (r & Hr & Hokr & Hlr & Hvr); try done; try lia.
    exists r. rewrite drop_ge by lia. simpl. split_and!; [done..|lia|].
    rewrite Hvr. lia. }
  simpl add_abs_loop.
  destruct (Nat.ltb_spec i max_size); [|lia]. simpl.
  destruct (Nat.eqb_spec i (length digits)); [lia|].
  destruct (lookup_lt_is_Some_2 digits i ltac:(lia)) as [d Hd].
  rewrite Hd. simpl.
  pose proof (limbs_ok_lookup _ _ _ Hok Hd) as Bd.
  pose proof (limbs_ok_default other i Hoth) as Bo.
  pose proof (limbs_value_drop_default other i) as Hdrop.
  set (o := default 0 (other !! i)) in *.
  set (s := d + carry + o).
  assert (Hsum : match other !! i with
                 | Some o0 => u64 (u64 (d + carry) + o0)
                 | None => u64 (d + carry)
                 end = s).
  { rewrite (u64_small (d + carry)) by lia.
    unfold s, o in *. destruct (other !! i) as [o0|]; simpl in *;
      rewrite ?u64_small by lia; lia. }
  rewrite Hsum.
  destruct (div_mod_base s) as [Hs Hm].
  assert (0 ≤ s / CELL_BASE ≤ 1) as Hq by (unfold s in *; nia).
  rewrite !u32_small by lia.
  destruct (IH (S i) (s / CELL_BASE) (<[i := s mod CELL_BASE]> digits))
    as (r & Hr & Hokr & Hlr & Hvr).
  - lia.
  - by rewrite length_insert.
  - by apply limbs_ok_insert.
  - done.
  - lia.
  - exists r. split_and!; try done.
    rewrite Hvr, (limbs_value_insert _ _ d) by done.
    rewrite Hdrop, pow_base_S. unfold s in *. nia.
Qed.

Lemma limbs_ok_resize n l : limbs_ok l → limbs_ok (resize n 0 l).
Proof.
  intros H. unfold resize. rewrite resize_spec.
  apply limbs_ok_app. split; [by apply limbs_ok_take|apply limbs_ok_replicate].
Qed.

Lemma limbs_value_resize n l :
  (length l ≤ n)%nat → limbs_value (resize n 0 l) = limbs_value l.
Proof.
  intros H. rewrite resize_spec, take_ge by done.
  rewrite limbs_value_app, limbs_value_replicate. lia.
Qed.

(** [add_abs] adds the magnitudes and keeps the sign of the receiver. *)
Lemma add_abs_spec fuel this other :
  wf this → wf other →
  (Nat.max (length (m_digits other)) (length (m_digits this)) < fuel)%nat →
  ∃ r, add_abs fuel this other = Some r ∧ valid r ∧
       limbs_value (m_digits r) =
         limbs_value (m_digits this) + limbs_value (m_digits other) ∧
       (limbs_value (m_digits r) ≠ 0 → m_negative r = m_negative this).
Proof.
  intros Ht Ho Hfuel. unfold add_abs.
  set (max_size := Nat.max _ _) in *.
  pose proof (wf_length _ Ht). pose proof (wf_length _ Ho).
  destruct (add_abs_loop_spec fuel 0 max_size 0
              (resize max_size 0 (m_digits this)) (m_digits other))
    as (r & Hr & Hokr & Hlr & Hvr); try lia.
  - by rewrite length_resize.
  - by apply limbs_ok_resize, wf_limbs_ok.
  - by apply wf_limbs_ok.
  - rewrite Hr. simpl. eexists. split; [done|].
    destruct (remove_leading_zeroes_spec (mkBigInteger r (m_negative this)))
      as (Hv & _ & Hval & _ & Hs); simpl; try done.
    { intros ->. simpl in Hlr. lia. }
    simpl in Hval, Hs. split_and!; [done| |].
    + rewrite Hval, Hvr, limbs_value_resize, drop_0 by lia. simpl. lia.
    + intros Hne. apply Hs. by rewrite <- Hval.
Qed.

(** ** Magnitude subtraction: [sub_abs] *)

Lemma normalized_last_nonzero l :
  normalized l → (2 ≤ length l)%nat → ∃ l' d, l = l' ++ [d] ∧ d ≠ 0.
Proof.
  intros (l' & d & -> & Hd)%normalized_inv Hlen.
  exists l', d. split; [done|]. destruct Hd as [?| ->]; [done|]. simpl in Hlen. lia.
Qed.

Lemma normalized_insert l i v :
  normalized l → (S i < length l)%nat → normalized (<[i := v]> l).
Proof.
  intros Hn Hi. destruct (normalized_last_nonzero l Hn ltac:(lia)) as (l' & d & -> & Hd).
  rewrite length_app in Hi. simpl in Hi.
  rewrite insert_app_l by lia. by apply normalized_snoc.
Qed.

Lemma sub_abs_loop_exit fuel i borrow this other :
  (length (m_digits this) ≤ i)%nat →
  sub_abs_loop fuel i borrow this other = Some this.
Proof.
  intros Hi. destruct fuel; simpl;
    (destruct (Nat.ltb_spec i (length (m_digits this))); [lia|done]).
Qed.

Lemma sub_abs_loop_spec k : ∀ fuel i borrow D neg other,
  length D = (i + k)%nat → (1 ≤ k)%nat →
  limbs_ok D → normalized D → limbs_ok other → 0 ≤ borrow ≤ 1 →
  borrow + limbs_value (drop i other) ≤ limbs_value (drop i D) →
  (k ≤ fuel)%nat →
  ∃ r, sub_abs_loop fuel i borrow (mkBigInteger D neg) other = Some r ∧
       valid r ∧
       limbs_value (m_digits r) =
         limbs_value D - CELL_BASE ^ Z.of_nat i * (borrow + limbs_value (drop i other)) ∧
       (limbs_value (m_digits r) ≠ 0 → m_negative r = neg).
Proof.
  induction k as [|k IH]; intros fuel i borrow D neg other Hlen Hk Hok Hn Hoth Hb Hge Hfuel;
    [lia|].
  destruct fuel as [|fuel]; [lia|].
  pose proof CELL_BASE_bound as HB.
  simpl sub_abs_loop.
  destruct (Nat.ltb_spec i (length D)); [|lia].
  destruct (lookup_lt_is_Some_2 D i ltac:(lia)) as [d Hd].
  rewrite Hd. simpl.
  pose proof (limbs_ok_lookup _ _ _ Hok Hd) as Bd.
  pose proof (limbs_ok_default other i Hoth) as Bo.
  rewrite (limbs_value_drop_default other i) in *.
  rewrite (limbs_value_drop_lookup D i d Hd) in Hge.
  set (c := default 0 (other !! i)) in *.
  pose proof (limbs_value_nonneg _ (limbs_ok_drop other (S i) Hoth)) as HVO.
  pose proof (limbs_value_nonneg _ (limbs_ok_drop D (S i) Hok)) as HVD.
  set (VO := limbs_value (drop (S i) other)) in *.
  set (VD := limbs_value (drop (S i) D)) in *.
  destruct (decide (k = 0)%nat) as [->|Hk'].
  - (* the most significant limb *)
    assert (VD = 0) as HVD0.
    { unfold VD. rewrite drop_ge; [done|lia]. }
    assert (VO = 0) by nia.
    destruct (Z.ltb_spec (d - borrow - c) 0); [nia|].
    rewrite u32_small by lia.
    destruct (remove_leading_zeroes_spec
                (mkBigInteger (<[i := d - borrow - c]> D) neg))
      as (Hv & _ & Hval & Hl & Hs); simpl.
    { intros HD. apply (f_equal length) in HD. rewrite length_insert in HD.
      simpl in HD. lia. }
    { apply limbs_ok_insert; [done|lia]. }
    simpl in Hval, Hs, Hl. rewrite length_insert in Hl.
    rewrite sub_abs_loop_exit by lia.
    eexists. split; [done|]. split; [done|].
    rewrite (limbs_value_insert _ _ d) in Hval, Hs by done.
    split.
    + rewrite Hval. nia.
    + intros Hne. apply Hs. by rewrite <- Hval.
  - (* a lower limb: the top limb is untouched, nothing is stripped *)
    set (diff := d - borrow - c).
    set (digit := if diff <? 0 then diff + CELL_BASE else diff).
    set (borrow' := if diff <? 0 then 1 else 0).
    assert (Hpair : (if diff <? 0 then (diff + CELL_BASE, 1) else (diff, 0))
                    = (digit, borrow')) by (unfold digit, borrow'; by destruct (diff <? 0)).
    rewrite Hpair. clear Hpair.
    assert (0 ≤ digit < CELL_BASE ∧ 0 ≤ borrow' ≤ 1 ∧ digit = diff + CELL_BASE * borrow')
      as (Bdigit & Bborrow & Hdigit).
    { unfold digit, borrow', diff. destruct (Z.ltb_spec (d - borrow - c) 0); lia. }
    rewrite u32_small by lia.
    rewrite remove_leading_zeroes_id; simpl.
    2: { apply normalized_insert; [done|lia]. }
    2: { left. intros HD. apply (f_equal length) in HD. rewrite length_insert in HD.
         simpl in HD. lia. }
    destruct (IH fuel (S i) borrow' (<[i := digit]> D) neg other)
      as (r & Hr & Hvr & Hval & Hs); try done; try lia.
    + rewrite length_insert. lia.
    + by apply limbs_ok_insert.
    + apply normalized_insert; [done|lia].
    + rewrite drop_insert_lt by lia. fold VO VD.
      unfold diff in *. nia.
    + exists r. split; [done|]. split; [done|]. split; [|done].
      rewrite Hval, (limbs_value_insert _ _ d) by done.
      rewrite pow_base_S. fold VO. unfold diff in *. nia.
Qed.

(** [sub_abs] subtracts a magnitude that is not larger than the
    receiver's. *)
Lemma sub_abs_spec fuel this other :
  wf this → wf other →
  limbs_value (m_digits other) ≤ limbs_value (m_digits this) →
  (length (m_digits this) ≤ fuel)%nat →
  ∃ r, sub_abs fuel this other = Some r ∧ valid r ∧
       limbs_value (m_digits r) =
         limbs_value (m_digits this) - limbs_value (m_digits other) ∧
       (limbs_value (m_digits r) ≠ 0 → m_negative r = m_negative this).
Proof.
  intros [Hok Hn]%wf_inv Ho%wf_limbs_ok Hle Hfuel. unfold sub_abs.
  destruct this as [D neg]. simpl in *.
  pose proof (normalized_nonempty _ Hn).
  destruct (sub_abs_loop_spec (length D) fuel 0 0 D neg (m_digits other))
    as (r & Hr & Hvr & Hval & Hs); try done; try lia.
  - destruct D; simpl; [done|lia].
  - exists r. split_and!; try done. rewrite Hval, drop_0. simpl. lia.
Qed.

(** ** Signed addition and subtraction *)

Lemma value_unfold x :
  value x = if m_negative x then - limbs_value (m_digits x) else limbs_value (m_digits x).
Proof. done. Qed.

Lemma returns_intro o r z : o = Some r → valid r → value r = z → returns o z.
Proof. intros. by exists r. Qed.

Lemma valid_flip r neg :
  valid r → value r ≠ 0 → valid (mkBigInteger (m_digits r) neg).
Proof.
  intros Hv Hne. apply wf_valid_nonzero.
  - by apply wf_sign, valid_wf.
  - simpl. rewrite value_unfold in Hne. destruct (m_negative r); lia.
Qed.

(** [operator+=] on operands that are normalized; the receiver may even be
    a negative zero, as it is inside [operator-=]. *)
Lemma add_assign_spec fuel a b :
  wf a → wf b →
  (Nat.max (length (m_digits a)) (length (m_digits b)) < fuel)%nat →
  returns (add_assign fuel a b) (value a + value b).
Proof.
  intros Ha Hb Hfuel. unfold add_assign.
  pose proof (limbs_value_nonneg _ (wf_limbs_ok _ Ha)) as Na.
  pose proof (limbs_value_nonneg _ (wf_limbs_ok _ Hb)) as Nb.
  destruct (Bool.eqb (m_negative a) (m_negative b)) eqn:Es.
  - apply Bool.eqb_prop in Es.
    destruct (add_abs_spec fuel a b Ha Hb ltac:(lia)) as (r & Hr & Hv & Hval & Hs).
    apply (returns_intro _ r); [done..|].
    rewrite !value_unfold, <- Es, Hval.
    destruct (decide (limbs_value (m_digits r) = 0)) as [Hz|Hnz].
    + rewrite Hval in Hz. destruct (m_negative r), (m_negative a); lia.
    + rewrite (Hs Hnz). destruct (m_negative a); lia.
  - apply Bool.eqb_false_iff in Es.
    rewrite operator_lt_spec by (by apply valid_abs). rewrite !value_abs.
    destruct (Z.ltb_spec (limbs_value (m_digits a)) (limbs_value (m_digits b))) as [Hlt|Hge].
    + destruct (sub_abs_spec fuel b a Hb Ha ltac:(lia) ltac:(lia))
        as (r & Hr & Hv & Hval & Hs).
      rewrite Hr. simpl.
      apply (returns_intro _ (mkBigInteger (m_digits r) (m_negative b))); [done| |].
      * apply wf_valid_nonzero; [by apply wf_sign, valid_wf|]. simpl. lia.
      * rewrite !value_unfold. simpl. rewrite Hval.
        destruct (m_negative a), (m_negative b); try done; lia.
    + destruct (sub_abs_spec fuel a b Ha Hb ltac:(lia) ltac:(lia))
        as (r & Hr & Hv & Hval & Hs).
      apply (returns_intro _ r); [done..|].
      rewrite !value_unfold, Hval.
      destruct (decide (limbs_value (m_digits r) = 0)) as [Hz|Hnz].
      * rewrite Hval in Hz. destruct (m_negative r), (m_negative a), (m_negative b); lia.
      * rewrite (Hs Hnz). destruct (m_negative a), (m_negative b); try done; lia.
Qed.

Lemma sub_assign_spec fuel a b :
  valid a → valid b →
  (Nat.max (length (m_digits a)) (length (m_digits b)) < fuel)%nat →
  returns (sub_assign fuel a b) (value a - value b).
Proof.
  intros Ha Hb Hfuel. unfold sub_assign.
  destruct (operator_eq b a) eqn:Eq.
  - apply operator_eq_true in Eq as ->. simpl.
    apply (returns_intro _ (mkBigInteger [0] false)); [done..|].
    rewrite value_unfold. simpl. lia.
  - set (a' := mkBigInteger (m_digits a) (negb (m_negative a))).
    destruct (add_assign_spec fuel a' b) as (r & Hr & Hv & Hval); try done.
    { by apply wf_sign, valid_wf. }
    { by apply valid_wf. }
    rewrite Hr. simpl.
    assert (value a' = - value a) as Ha'.
    { unfold a'. rewrite !value_unfold. simpl. destruct (m_negative a); simpl; lia. }
    assert (value a ≠ value b) as Hne.
    { intros Heq. rewrite (valid_inj a b Ha Hb Heq) in Eq.
      assert (operator_eq b b = true) by (by apply operator_eq_true). congruence. }
    set (r' := mkBigInteger (m_digits r) (negb (m_negative r))).
    assert (valid r') as Hv' by (apply valid_flip; [done|lia]).
    assert (value r' = - value r) as Hr'.
    { unfold r'. rewrite !value_unfold. simpl. destruct (m_negative r); simpl; lia. }
    assert (is_zero r' = false) as ->.
    { destruct (is_zero r') eqn:Ez; [|done]. apply is_zero_spec in Ez.
      assert (value r' = 0); [|lia].
      rewrite value_unfold, Ez. simpl. destruct (negb (m_negative r)); lia. }
    apply (returns_intro _ r'); [done..|]. lia.
Qed.

(** ** Multiplication *)

Lemma mul_inner_exit fuel i j x other result :
  (length other ≤ j)%nat → mul_inner fuel i j 0 x other result = Some result.
Proof.
  intros Hj. destruct fuel; simpl;
    (destruct (Nat.ltb_spec j (length other)); [lia|done]).
Qed.

Lemma all_zero_drop_S (l : list Z) k :
  Forall (λ d, d = 0) (drop k l) → Forall (λ d, d = 0) (drop (S k) l).
Proof.
  intros H. replace (S k) with (k + 1)%nat by lia. rewrite <- drop_drop.
  by apply Forall_drop.
Qed.

Lemma all_zero_drop_lookup (l : list Z) k d :
  Forall (λ d, d = 0) (drop k l) → l !! k = Some d → d = 0.
Proof.
  intros H Hk. rewrite (drop_S l d k Hk) in H. by inversion H.
Qed.

Lemma mul_inner_spec fuel : ∀ i j carry x other result,
  limbs_ok other → limbs_ok result →
  0 ≤ x < CELL_BASE → 0 ≤ carry < CELL_BASE →
  (j ≤ length other)%nat → (i + length other < length result)%nat →
  Forall (λ d, d = 0) (drop (i + length other) result) →
  (length other - j < fuel)%nat →
  ∃ r, mul_inner fuel i j carry x other result = Some r ∧
       limbs_ok r ∧ length r = length result ∧
       limbs_value r =
         limbs_value result +
         CELL_BASE ^ Z.of_nat (i + j) * (carry + x * limbs_value (drop j other)) ∧
       Forall (λ d, d = 0) (drop (S (i + length other)) r).
Proof.
  induction fuel as [|fuel IH];
    intros i j carry x other result Hoth Hres Hx Hc Hj HL Hz Hfuel; [lia|].
  pose proof CELL_BASE_bound as HB.
  destruct (lookup_lt_is_Some_2 result (i + j) ltac:(lia)) as [r0 Hr0].
  pose proof (limbs_ok_lookup _ _ _ Hres Hr0) as Br0.
  pose proof (limbs_ok_default other j Hoth) as Bo.
  pose proof (limbs_value_drop_default other j) as Hdrop.
  set (o := default 0 (other !! j)) in *.
  set (p := r0 + carry + x * o).
  assert (0 ≤ x * o ≤ (CELL_BASE - 1) * (CELL_BASE - 1)) as Hxo by nia.
  assert (0 ≤ p < CELL_BASE * CELL_BASE) as Hp by (unfold p; nia).
  assert (Hprod : u64 (u64 (r0 + carry) + u64 (x * o)) = p).
  { rewrite (u64_small (r0 + carry)), (u64_small (x * o)), u64_small; [done|nia..]. }
  destruct (div_mod_base p) as [Hpd Hpm].
  assert (0 ≤ p / CELL_BASE < CELL_BASE) as Hq by nia.
  destruct (decide (j = length other)) as [->|Hlt].
  - (* past the last limb of [other]: only a pending carry keeps the loop going *)
    assert (r0 = 0) as -> by (by eapply all_zero_drop_lookup).
    assert (o = 0) as Ho by (unfold o; by rewrite lookup_ge_None_2).
    assert (p = carry) as Hpc by (unfold p; lia).
    rewrite drop_ge in * by lia. simpl limbs_value in *.
    destruct (decide (carry = 0)) as [->|Hcn].
    + rewrite mul_inner_exit by lia. exists result. split_and!; try done; [lia|].
      by apply all_zero_drop_S.
    + simpl mul_inner.
      destruct (Nat.ltb_spec (length other) (length other)); [lia|]. simpl.
      destruct (Z.eqb_spec carry 0); [done|]. simpl.
      rewrite Hr0. simpl. fold o. rewrite Hprod, Hpc.
      rewrite Z.div_small, Z.mod_small, u32_small by lia.
      rewrite mul_inner_exit by lia.
      eexists. split; [done|]. split_and!.
      * apply limbs_ok_insert; [done|lia].
      * by rewrite length_insert.
      * rewrite (limbs_value_insert _ _ 0) by done. lia.
      * rewrite drop_insert_lt by lia. by apply all_zero_drop_S.
  - simpl mul_inner.
    destruct (Nat.ltb_spec j (length other)); [|lia]. simpl.
    rewrite Hr0. simpl. fold o. rewrite Hprod.
    rewrite u32_small by lia.
    destruct (IH i (S j) (p / CELL_BASE) x other (<[(i + j)%nat := p mod CELL_BASE]> result))
      as (r & Hr & Hokr & Hlr & Hvr & Hzr); try done; try lia.
    + apply limbs_ok_insert; [done|lia].
    + rewrite length_insert. lia.
    + rewrite drop_insert_lt by lia. done.
    + exists r. rewrite length_insert in Hlr. split_and!; try done.
      rewrite Hvr, (limbs_value_insert _ _ r0), Hdrop by done.
      replace (i + S j)%nat with (S (i + j)) by lia. rewrite pow_base_S.
      unfold p in *. nia.
Qed.

Lemma mul_outer_spec fuel other : ∀ mine i result,
  limbs_ok mine → limbs_ok other → limbs_ok result →
  (i + length mine + length other ≤ length result)%nat →
  Forall (λ d, d = 0) (drop (i + length other) result) →
  (length other < fuel)%nat →
  ∃ r, mul_outer fuel i mine other result = Some r ∧
       limbs_ok r ∧ length r = length result ∧
       limbs_value r =
         limbs_value result +
         CELL_BASE ^ Z.of_nat i * (limbs_value mine * limbs_value other).
Proof.
  induction mine as [|x mine IH]; intros i result Hm Ho Hres HL Hz Hfuel.
  - exists result. simpl. split_and!; try done. lia.
  - apply limbs_ok_cons in Hm as [Hx Hm]. simpl in HL.
    pose proof CELL_BASE_pos.
    destruct (mul_inner_spec fuel i 0 0 x other result)
      as (r1 & Hr1 & Hok1 & Hl1 & Hv1 & Hz1); try done; try lia.
    simpl mul_outer. rewrite Hr1. simpl.
    destruct (IH (S i) r1) as (r & Hr & Hokr & Hlr & Hvr); try done; try lia.
    exists r. split_and!; try done; [congruence|].
    rewrite Hvr, Hv1, drop_0, Nat.add_0_r, pow_base_S. simpl. lia.
Qed.

Lemma resize_default_zero n :
  (1 ≤ n)%nat →
  let l := resize n 0 (m_digits BigInteger_default) in
  limbs_ok l ∧ limbs_value l = 0 ∧ Forall (λ d, d = 0) l ∧ length l = n.
Proof.
  intros Hn l. unfold l. simpl m_digits. split_and!.
  - apply limbs_ok_resize. apply limbs_ok_cons. pose proof CELL_BASE_pos. split; [lia|done].
  - rewrite limbs_value_resize by (simpl; lia). simpl. lia.
  - rewrite resize_spec. apply Forall_app. split.
    + apply Forall_take. by constructor.
    + by apply Forall_replicate.
  - by rewrite length_resize.
Qed.

(** [operator*=] multiplies the values; it needs limbs in range only. *)
Lemma mul_assign_spec fuel a b :
  limbs_ok (m_digits a) → limbs_ok (m_digits b) →
  (length (m_digits b) < fuel)%nat →
  returns (mul_assign fuel a b) (value a * value b).
Proof.
  intros Ha Hb Hfuel. unfold mul_assign.
  set (n := (length (m_digits a) + length (m_digits b) + 1)%nat).
  destruct (resize_default_zero n ltac:(lia)) as (Hok0 & Hv0 & Hz0 & Hl0).
  destruct (mul_outer_spec fuel (m_digits b) (m_digits a) 0
              (resize n 0 (m_digits BigInteger_default)))
    as (r & Hr & Hokr & Hlr & Hvr); try done.
  { rewrite Hl0. lia. }
  { by apply Forall_drop. }
  rewrite Hr. simpl.
  set (neg := negb (Bool.eqb (m_negative a) (m_negative b))).
  destruct (remove_leading_zeroes_spec (mkBigInteger r neg))
    as (Hv & Hval & Hmag & _ & Hs); simpl; try done.
  { intros ->. rewrite Hl0 in Hlr. simpl in Hlr. lia. }
  apply (returns_intro _ _ _ eq_refl Hv).
  rewrite Hval. rewrite !value_unfold. simpl. rewrite Hvr, Hv0. simpl.
  unfold neg. destruct (m_negative a), (m_negative b); simpl; lia.
Qed.

(** ** Construction from a native integer *)

Lemma int_limbs_exit fuel num digits :
  num ≤ 0 → int_limbs fuel num digits = Some digits.
Proof.
  intros H. destruct fuel; simpl; rewrite Z.gtb_ltb;
    (destruct (Z.ltb_spec 0 num); [lia|done]).
Qed.

Lemma int_limbs_spec fuel num :
  0 < num < 2 ^ 31 → (2 ≤ fuel)%nat →
  ∃ ds, int_limbs fuel num [] = Some ds ∧ limbs_ok ds ∧ normalized ds ∧
        limbs_value ds = num ∧ ds ≠ [0] ∧ (length ds ≤ 2)%nat.
Proof.
  intros Hnum Hfuel. pose proof CELL_BASE_eq as HB.
  destruct fuel as [|[|fuel]]; try lia.
  destruct (div_mod_base num) as [Hd Hm].
  assert (0 ≤ num / CELL_BASE ≤ 2) as Hq by nia.
  simpl int_limbs. rewrite Z.gtb_ltb.
  destruct (Z.ltb_spec 0 num); [|lia].
  rewrite (u32_small num), i32_small by lia.
  rewrite Z.gtb_ltb. simpl app.
  destruct (Z.ltb_spec 0 (num / CELL_BASE)) as [Hpos|Hzero].
  - rewrite (u32_small (num / CELL_BASE)) by lia.
    rewrite (Z.div_small (num / CELL_BASE)), (Z.mod_small (num / CELL_BASE)) by lia.
    rewrite i32_small by lia. rewrite int_limbs_exit by lia.
    eexists. split; [done|]. split_and!.
    + apply limbs_ok_cons. split; [done|]. apply limbs_ok_cons. split; [lia|done].
    + apply (normalized_snoc [_]). lia.
    + simpl. lia.
    + done.
    + simpl. lia.
  - eexists. split; [done|]. assert (num / CELL_BASE = 0) as Hq0 by lia.
    assert (num mod CELL_BASE = num) as -> by lia.
    split_and!.
    + apply limbs_ok_cons. split; [lia|done].
    + apply (normalized_snoc []). lia.
    + simpl. lia.
    + intros [= ?]. lia.
    + simpl. lia.
Qed.

Lemma BigInteger_of_int_spec fuel num :
  INT_MIN < num ≤ INT_MAX → (2 ≤ fuel)%nat →
  ∃ r, BigInteger_of_int fuel num = Some r ∧ valid r ∧ value r = num ∧
       (length (m_digits r) ≤ 2)%nat.
Proof.
  unfold INT_MIN, INT_MAX. intros Hnum Hfuel. unfold BigInteger_of_int.
  destruct (Z.eqb_spec num INT_MIN) as [E|_]; [unfold INT_MIN in E; lia|].
  destruct (Z.eqb_spec (Z.abs num) 0) as [E|Hne].
  - assert (num = 0) as -> by lia. simpl. eexists. split; [done|].
    split_and!; [done| |simpl; lia]. rewrite value_unfold. simpl. lia.
  - destruct (int_limbs_spec fuel (Z.abs num)) as (ds & Hds & Hok & Hn & Hv & Hnz & Hl);
      [lia|done|].
    rewrite Hds. simpl. eexists. split; [done|]. split_and!.
    + apply valid_inv. split; [by apply wf_inv|]. simpl. done.
    + rewrite value_unfold. simpl. rewrite Hv. destruct (Z.ltb_spec num 0); lia.
    + done.
Qed.

Lemma BigInteger_of_int_small fuel num :
  0 ≤ num < CELL_BASE → (1 ≤ fuel)%nat →
  BigInteger_of_int fuel num = Some (mkBigInteger [num] false).
Proof.
  intros Hnum Hfuel. pose proof CELL_BASE_eq as HB. unfold BigInteger_of_int.
  destruct (Z.eqb_spec num INT_MIN) as [E|_]; [unfold INT_MIN in E; lia|].
  destruct (Z.ltb_spec num 0); [lia|].
  destruct (Z.eqb_spec (Z.abs num) 0) as [E|Hne].
  - by assert (num = 0) as -> by lia.
  - rewrite Z.abs_eq by lia. destruct fuel as [|fuel]; [lia|].
    simpl int_limbs. rewrite Z.gtb_ltb.
    destruct (Z.ltb_spec 0 num); [|lia].
    rewrite (u32_small num) by lia.
    rewrite Z.div_small, Z.mod_small by lia.
    rewrite i32_small by lia. rewrite int_limbs_exit by lia. done.
Qed.

Lemma valid_small num : 0 ≤ num < CELL_BASE → valid (mkBigInteger [num] false).
Proof.
  intros H. apply valid_inv. split; [|done]. apply wf_inv. simpl. split.
  - apply limbs_ok_cons. split; [lia|done].
  - unfold normalized, normalizedb. simpl. apply orb_true_r.
Qed.

Lemma value_small num : value (mkBigInteger [num] false) = num.
Proof. rewrite value_unfold. simpl. lia. Qed.

(** ** Long division *)

Lemma wf_length_le x n :
  wf x → limbs_value (m_digits x) < CELL_BASE ^ Z.of_nat n → (1 ≤ n)%nat →
  (length (m_digits x) ≤ n)%nat.
Proof.
  intros [Hok Hn]%wf_inv Hv H1.
  destruct (normalized_lower _ Hok Hn) as [->|Hlow]; [simpl; lia|].
  destruct (Nat.le_gt_cases (length (m_digits x)) n) as [|Hgt]; [done|].
  pose proof (pow_base_le n (length (m_digits x) - 1) ltac:(lia)). lia.
Qed.

Lemma valid_value_nonneg x : valid x → m_negative x = false → 0 ≤ value x.
Proof.
  intros Hv Hs. rewrite value_unfold, Hs.
  by apply limbs_value_nonneg, valid_limbs_ok.
Qed.

Lemma pow2_fuel fuel : (30 ≤ fuel)%nat → CELL_BASE < 2 ^ Z.of_nat fuel.
Proof.
  intros H. pose proof CELL_BASE_bound.
  assert (2 ^ 30 ≤ 2 ^ Z.of_nat fuel) by (apply Z.pow_le_mono_r; lia). lia.
Qed.

(** The binary search returns the largest candidate limb whose product with
    the divisor does not exceed the running remainder. *)
Lemma quotient_search_spec fuel b cur n : ∀ left right val,
  valid b → 0 ≤ value b → valid cur →
  (3 ≤ fuel)%nat →
  0 ≤ left → right < CELL_BASE → left - 1 ≤ val ≤ right → 0 ≤ val →
  value b * val ≤ value cur →
  (∀ m, right < m < CELL_BASE → value cur < value b * m) →
  right - left + 1 < 2 ^ Z.of_nat n →
  ∃ v, quotient_search fuel n b cur left right val = Some v ∧
       0 ≤ v < CELL_BASE ∧ value b * v ≤ value cur ∧
       (∀ m, v < m < CELL_BASE → value cur < value b * m).
Proof.
  induction n as [|n IH];
    intros left right val Hb Hbn Hcur Hfuel Hl Hr Hval Hv0 Hpred Hupper Hn.
  { simpl in *. destruct (Z.leb_spec left right); [lia|].
    exists val. split; [done|]. split; [lia|]. split; [done|].
    intros m Hm. apply Hupper. lia. }
  pose proof CELL_BASE_bound as HB.
  simpl quotient_search.
  destruct (Z.leb_spec left right) as [Hle|Hgt].
  2: { exists val. split; [done|]. split; [lia|]. split; [done|].
       intros m Hm. apply Hupper. lia. }
  rewrite (i32_small (left + right)) by lia.
  rewrite Z.shiftr_div_pow2 by lia. change (2 ^ 1) with 2.
  set (mid := (left + right) / 2).
  assert (left ≤ mid ≤ right) as Hmid by (unfold mid; split;
    [apply Z.div_le_lower_bound|apply Z.div_le_upper_bound]; lia).
  rewrite BigInteger_of_int_small by lia. simpl.
  destruct (mul_assign_spec fuel b (mkBigInteger [mid] false))
    as (prod & Hprod & Hvp & Hvalp).
  { by apply valid_limbs_ok. }
  { apply limbs_ok_cons. split; [lia|done]. }
  { simpl. lia. }
  rewrite value_small in Hvalp.
  rewrite Hprod. simpl. rewrite operator_le_spec, Hvalp by done.
  rewrite Nat2Z.inj_succ, Z.pow_succ_r in Hn by lia.
  assert (2 * mid ≤ left + right < 2 * mid + 2) as Hmid2.
  { unfold mid. pose proof (Z.div_mod (left + right) 2 ltac:(lia)).
    pose proof (Z.mod_pos_bound (left + right) 2 ltac:(lia)). lia. }
  destruct (Z.leb_spec (value b * mid) (value cur)) as [Hp|Hp].
  - rewrite i32_small by lia.
    apply IH; try done; try lia.
  - rewrite i32_small by lia.
    apply IH; try done; try lia.
    + split; [lia|]. destruct (Z.le_gt_cases mid val) as [Hmv|]; [|lia]. nia.
    + intros m Hm. destruct (Z.le_gt_cases m right) as [|]; [|apply Hupper; lia]. nia.
Qed.

Lemma valid_nonneg_sign x : valid x → 0 ≤ value x → m_negative x = false.
Proof.
  intros Hv Hx. pose proof (value_sign x Hv) as Hs.
  destruct (m_negative x); [|done]. assert (value x < 0) by (by apply Hs). lia.
Qed.

Lemma valid_nonneg_value x :
  valid x → 0 ≤ value x → limbs_value (m_digits x) = value x.
Proof.
  intros Hv Hx. rewrite value_magnitude by (by apply valid_wf). lia.
Qed.

Lemma valid_length_le x n :
  valid x → Z.abs (value x) < CELL_BASE ^ Z.of_nat n → (1 ≤ n)%nat →
  (length (m_digits x) ≤ n)%nat.
Proof.
  intros Hv Hx Hn. apply wf_length_le; [by apply valid_wf| |done].
  by rewrite value_magnitude by (by apply valid_wf).
Qed.

Lemma valid_value_bound x :
  valid x → Z.abs (value x) < CELL_BASE ^ Z.of_nat (length (m_digits x)).
Proof.
  intros Hv. rewrite <- value_magnitude by (by apply valid_wf).
  by apply limbs_value_bound, valid_limbs_ok.
Qed.

(** Folding the next limb of the dividend into the running remainder. *)
Lemma div_fold_limb cur d :
  valid cur → 0 ≤ value cur → 0 ≤ d < CELL_BASE →
  let cur1 :=
    remove_leading_zeroes
      match m_digits (shift_left cur) with
      | [] => mkBigInteger [d] (m_negative (shift_left cur))
      | _ :: _ =>
          mkBigInteger (<[O := d]> (m_digits (shift_left cur)))
            (m_negative (shift_left cur))
      end in
  valid cur1 ∧ value cur1 = d + CELL_BASE * value cur.
Proof.
  intros Hv Hx Hd. simpl.
  pose proof (valid_nonneg_sign _ Hv Hx) as Hs.
  destruct (remove_leading_zeroes_spec
              (mkBigInteger (d :: m_digits cur) (m_negative cur)))
    as (Hv1 & Hval & _); simpl; try done.
  { apply limbs_ok_cons. split; [done|]. by apply valid_limbs_ok. }
  split; [done|]. rewrite Hval, !value_unfold, Hs. simpl. done.
Qed.

Lemma limbs_value_drop_snoc_zero (l : list Z) k :
  (length l ≤ k)%nat → limbs_value (drop k (l ++ [0])) = 0.
Proof.
  intros H. rewrite drop_app_ge by done.
  destruct (k - length l)%nat as [|n]; simpl; [lia|]. by rewrite drop_nil.
Qed.

Lemma div_loop_spec fuel a b :
  limbs_ok (m_digits a) → valid b → 0 < value b →
  (length (m_digits b) + 32 ≤ fuel)%nat →
  ∀ k cur result,
    (k ≤ length (m_digits a))%nat →
    valid cur → 0 ≤ value cur < value b →
    limbs_ok (m_digits result) →
    (length (m_digits a) + 1 ≤ length (m_digits result) + length (m_digits b))%nat →
    limbs_value (drop k (m_digits a)) =
      value b * limbs_value (drop k (m_digits result)) + value cur →
    ∃ r rem, div_loop fuel k a b cur result = Some r ∧
      limbs_ok (m_digits r) ∧ m_negative r = m_negative result ∧
      (length (m_digits result) ≤ length (m_digits r))%nat ∧
      limbs_value (m_digits a) = value b * limbs_value (m_digits r) + rem ∧
      0 ≤ rem < value b.
Proof.
  intros Ha Hb Hbpos Hfuel.
  pose proof CELL_BASE_bound as HB.
  pose proof (valid_nonneg_value b Hb ltac:(lia)) as Hbmag.
  pose proof (valid_value_bound b Hb) as Hbbound.
  induction k as [|iter IH]; intros cur result Hk Hcur Hcv Hres Hlen Hinv.
  { exists result, (value cur). simpl. rewrite !drop_0 in Hinv.
    split_and!; done || lia. }
  destruct (lookup_lt_is_Some_2 (m_digits a) iter ltac:(lia)) as [d Hd].
  pose proof (limbs_ok_lookup _ _ _ Ha Hd) as Bd.
  destruct (div_fold_limb cur d Hcur ltac:(lia) Bd) as [Hcur1 Hval1].
  simpl div_loop. rewrite Hd. simpl.
  set (cur1 := remove_leading_zeroes _) in *.
  rewrite i32_small by lia.
  destruct (quotient_search_spec fuel b cur1 fuel 0 (CELL_BASE - 1) 0)
    as (val & Hsearch & Bval & Hlow & Hup); try done; try lia.
  { pose proof (pow2_fuel fuel ltac:(lia)). lia. }
  rewrite Hsearch. simpl.
  rewrite BigInteger_of_int_small by lia. simpl.
  destruct (mul_assign_spec fuel b (mkBigInteger [val] false))
    as (prod & Hprod & Hvp & Hvalp).
  { by apply valid_limbs_ok. }
  { apply limbs_ok_cons. split; [lia|done]. }
  { simpl. lia. }
  rewrite value_small in Hvalp. rewrite Hprod. simpl.
  assert (value cur1 < value b * (val + 1)) as Hupper.
  { destruct (decide (val + 1 < CELL_BASE)) as [Hlt|Hge]; [apply Hup; lia|]. nia. }
  assert (value cur1 < CELL_BASE ^ Z.of_nat (length (m_digits b) + 1)) as Hc1b.
  { rewrite pow_base_add. change (Z.of_nat 1) with 1. rewrite Z.pow_1_r. nia. }
  assert (length (m_digits cur1) ≤ length (m_digits b) + 1)%nat as Hl1.
  { apply valid_length_le; [done|lia|lia]. }
  assert (length (m_digits prod) ≤ length (m_digits b) + 1)%nat as Hlp.
  { apply valid_length_le; [done|nia|lia]. }
  destruct (sub_assign_spec fuel cur1 prod Hcur1 Hvp ltac:(lia))
    as (cur2 & Hsub & Hcur2 & Hval2).
  rewrite Hsub. simpl.
  rewrite u32_small by lia.
  destruct (Nat.ltb_spec iter (length (m_digits result))) as [Hin|Hout].
  - destruct (IH cur2 (mkBigInteger (<[iter := val]> (m_digits result)) (m_negative result)))
      as (r & rem & Hr & Hokr & Hsr & Hlr & Hvr & Hrem); try done; try lia.
    + simpl. apply limbs_ok_insert; [done|lia].
    + simpl. rewrite length_insert. lia.
    + simpl.
      destruct (lookup_lt_is_Some_2 (m_digits result) iter Hin) as [old Hold].
      assert (<[iter := val]> (m_digits result) !! iter = Some val) as Hnew
        by (by apply list_lookup_insert_eq).
      rewrite (limbs_value_drop_lookup _ _ _ Hnew), drop_insert_lt by lia.
      rewrite (limbs_value_drop_lookup _ _ _ Hd). nia.
    + simpl in *. rewrite length_insert in Hlr. exists r, rem.
      split_and!; done || lia.
  - (* the limb is appended: the remainder is still shorter than the divisor *)
    assert (limbs_value (drop (S iter) (m_digits result)) = 0) as Hz
      by (rewrite drop_ge; [done|lia]).
    assert (limbs_value (drop iter (m_digits a)) < value b) as Hshort.
    { pose proof (limbs_value_bound _ (limbs_ok_drop _ iter Ha)) as Hbd.
      rewrite length_drop in Hbd.
      destruct (normalized_lower (m_digits b)) as [E|Hlow'].
      { by apply valid_limbs_ok. }
      { by apply valid_wf, wf_inv in Hb as [_ ?]. }
      { rewrite E in Hbmag. simpl in Hbmag. lia. }
      pose proof (pow_base_le (length (m_digits a) - iter) (length (m_digits b) - 1)
                    ltac:(lia)). lia. }
    rewrite (limbs_value_drop_lookup _ _ _ Hd) in Hshort.
    assert (val = 0) as -> by nia.
    destruct (IH cur2 (mkBigInteger (m_digits result ++ [0]) (m_negative result)))
      as (r & rem & Hr & Hokr & Hsr & Hlr & Hvr & Hrem); try done; try lia.
    + simpl. apply limbs_ok_app. split; [done|]. apply limbs_ok_cons. split; [lia|done].
    + simpl. rewrite length_app. simpl. lia.
    + simpl. rewrite limbs_value_drop_snoc_zero by lia.
      rewrite (limbs_value_drop_lookup _ _ _ Hd). nia.
    + simpl in *. rewrite length_app in Hlr. simpl in Hlr.
      exists r, rem. split_and!; done || lia.
Qed.

Lemma quot_sign_magnitude (na nb : bool) A B :
  0 ≤ A → 0 < B →
  Z.quot (if na then - A else A) (if nb then - B else B) =
  if negb (Bool.eqb na nb) then - (A / B) else A / B.
Proof.
  intros HA HB. destruct na, nb; simpl;
    rewrite ?Z.quot_opp_opp, ?Z.quot_opp_l, ?Z.quot_opp_r by lia;
    rewrite Z.quot_div_nonneg by lia; done.
Qed.

Lemma quot_magnitude_le a b : b ≠ 0 → Z.abs (Z.quot a b * b) ≤ Z.abs a.
Proof.
  intros Hb. rewrite Z.abs_mul, <- Z.quot_abs by done.
  rewrite Z.quot_div_nonneg by lia.
  pose proof (Z.mul_div_le (Z.abs a) (Z.abs b) ltac:(lia)). lia.
Qed.

(** [operator/=] with a non-zero divisor computes the quotient truncated
    toward zero. *)
Lemma div_assign_spec fuel a b :
  valid a → valid b → value b ≠ 0 →
  (length (m_digits b) + 32 ≤ fuel)%nat →
  returns (div_assign fuel a b) (Z.quot (value a) (value b)).
Proof.
  intros Ha Hb Hbne Hfuel.
  pose proof CELL_BASE_bound as HB.
  pose proof (valid_wf _ Ha) as Wa. pose proof (valid_wf _ Hb) as Wb.
  pose proof (limbs_value_nonneg _ (wf_limbs_ok _ Wa)) as NA.
  pose proof (limbs_value_nonneg _ (wf_limbs_ok _ Wb)) as NB.
  set (A := limbs_value (m_digits a)) in *.
  set (B := limbs_value (m_digits b)) in *.
  assert (0 < B) as HBpos.
  { rewrite (value_unfold b) in Hbne. fold B in Hbne. destruct (m_negative b); lia. }
  assert (Z.quot (value a) (value b) =
          if negb (Bool.eqb (m_negative a) (m_negative b)) then - (A / B) else A / B)
    as Hquot by (rewrite !value_unfold; by apply quot_sign_magnitude).
  rewrite Hquot. clear Hquot.
  set (rn := negb (Bool.eqb (m_negative a) (m_negative b))).
  unfold div_assign. fold rn.
  rewrite operator_eq_spec, operator_lt_spec, !value_abs by (by apply valid_abs).
  fold A B.
  destruct (decide (A = B)) as [Heq|Hne].
  { rewrite bool_decide_eq_true_2 by done.
    apply (returns_intro _ (mkBigInteger [1] rn)); [done| |].
    - apply wf_valid_nonzero; [done|]. simpl. lia.
    - rewrite value_unfold. simpl. rewrite Heq, Z.div_same by lia.
      destruct rn; lia. }
  rewrite bool_decide_eq_false_2 by done.
  destruct (Z.ltb_spec A B) as [Hlt|Hge].
  { rewrite BigInteger_of_int_small by lia.
    apply (returns_intro _ (mkBigInteger [0] false)); [done..|].
    rewrite value_small, Z.div_small by lia. by destruct rn. }
  assert (length (m_digits b) ≤ length (m_digits a))%nat as Hlen.
  { destruct (Nat.le_gt_cases (length (m_digits b)) (length (m_digits a))) as [|Hgt]; [done|].
    apply wf_inv in Wa as [Oa Na]. apply wf_inv in Wb as [Ob Nb].
    pose proof (limbs_value_length_lt (m_digits a) (m_digits b) Oa Ob Na Nb ltac:(lia)).
    unfold A, B in *. lia. }
  set (n := (length (m_digits (abs a)) - length (m_digits (abs b)) + 1)%nat).
  destruct (resize_default_zero n ltac:(lia)) as (Hok0 & Hv0 & Hz0 & Hl0).
  destruct (div_loop_spec fuel (abs a) (abs b)) with
    (k := length (m_digits (abs a))) (cur := BigInteger_default)
    (result := mkBigInteger (resize n 0 (m_digits BigInteger_default)) rn)
    as (r & rem & Hr & Hokr & Hsr & Hlr & Hvr & Hrem); simpl; try done.
  - by apply wf_limbs_ok.
  - by apply valid_abs.
  - simpl in Hl0. rewrite Hl0. unfold n. simpl. lia.
  - rewrite drop_all. simpl in Hz0.
    rewrite (limbs_value_all_zero (drop _ _)) by (by apply Forall_drop).
    rewrite !value_unfold. simpl. lia.
  - simpl in Hr. rewrite Hr. simpl.
    rewrite value_abs in Hvr, Hrem. fold A B in Hvr, Hrem. simpl in Hvr.
    destruct (remove_leading_zeroes_spec r) as (Hv & Hval & Hmag & _ & Hs); try done.
    { intros E. rewrite E in Hlr. simpl in Hlr, Hl0. rewrite Hl0 in Hlr.
      unfold n in Hlr. lia. }
    apply (returns_intro _ _ _ eq_refl Hv).
    rewrite Hval, value_unfold, Hsr. simpl.
    assert (limbs_value (m_digits r) = A / B) as ->; [|done].
    apply (Z.div_unique_pos A B _ rem); lia.
Qed.

(** [operator%=] with a non-zero divisor computes the remainder of the
    truncated division. *)
Lemma mod_assign_spec fuel a b :
  valid a → valid b → value b ≠ 0 →
  (length (m_digits a) + length (m_digits b) + 32 ≤ fuel)%nat →
  returns (mod_assign fuel a b) (Z.rem (value a) (value b)).
Proof.
  intros Ha Hb Hbne Hfuel. unfold mod_assign.
  destruct (div_assign_spec fuel a b Ha Hb Hbne ltac:(lia)) as (q & Hq & Hvq & Hvalq).
  rewrite Hq. simpl.
  destruct (mul_assign_spec fuel q b) as (prod & Hprod & Hvp & Hvalp);
    [by apply valid_limbs_ok..|lia|].
  rewrite Hprod. simpl.
  assert (length (m_digits prod) ≤ length (m_digits a))%nat as Hlp.
  { apply valid_length_le; [done| |by apply wf_length, valid_wf].
    pose proof (valid_value_bound a Ha). rewrite Hvalp, Hvalq.
    pose proof (quot_magnitude_le (value a) (value b) Hbne). lia. }
  destruct (sub_assign_spec fuel a prod Ha Hvp ltac:(lia)) as (r & Hr & Hvr & Hvalr).
  apply (returns_intro _ r); [done..|].
  rewrite Hvalr, Hvalp, Hvalq.
  pose proof (Z.quot_rem' (value a) (value b)). lia.
Qed.

(** * The claims about BigInteger arithmetic *)

Lemma is_zero_false_value r : valid r → is_zero r = false → value r ≠ 0.
Proof.
  intros Hv Hz Hval. pose proof (valid_wf _ Hv) as Hwf.
  assert (m_digits r = [0]) as E.
  { apply wf_zero; [done|]. rewrite value_magnitude by done. lia. }
  apply is_zero_spec in E. congruence.
Qed.

(** The truncated division law on the values of the data model: for
    every such [a] and every non-zero [b] the
    operators satisfy [a == (a / b) * b + (a % b)]; when [a % b] is not zero
    its sign is the sign of [a]; the quotient is the one truncated toward
    zero.  The scenario [-5 / 2 == -2], [-5 % 2 == -1] is evaluated in
    [truncated_division_law_minus5_by_2]. *)
Theorem truncated_division_law (a b : BigInteger) (fuel : nat) :
  valid a → valid b → value b ≠ 0 →
  (length (m_digits a) + length (m_digits b) + 32 ≤ fuel)%nat →
  ∃ q r p s,
    div_assign fuel a b = Some q ∧ mod_assign fuel a b = Some r ∧
    mul_assign fuel q b = Some p ∧ add_assign fuel p r = Some s ∧
    operator_eq a s = true ∧
    (is_zero r = false → m_negative r = m_negative a) ∧
    value q = Z.quot (value a) (value b) ∧
    value r = Z.rem (value a) (value b).
Proof.
  intros Ha Hb Hbne Hfuel.
  destruct (div_assign_spec fuel a b Ha Hb Hbne ltac:(lia)) as (q & Hq & Hvq & Hvalq).
  destruct (mod_assign_spec fuel a b Ha Hb Hbne ltac:(lia)) as (r & Hr & Hvr & Hvalr).
  destruct (mul_assign_spec fuel q b) as (p & Hp & Hvp & Hvalp);
    [by apply valid_limbs_ok..|lia|].
  pose proof (valid_value_bound a Ha) as Ba.
  pose proof (valid_value_bound b Hb) as Bb.
  assert (length (m_digits p) ≤ length (m_digits a))%nat as Hlp.
  { apply valid_length_le; [done| |by apply wf_length, valid_wf].
    rewrite Hvalp, Hvalq.
    pose proof (quot_magnitude_le (value a) (value b) Hbne). lia. }
  assert (length (m_digits r) ≤ length (m_digits b))%nat as Hlr.
  { apply valid_length_le; [done| |by apply wf_length, valid_wf].
    rewrite Hvalr. pose proof (Z.rem_bound_abs (value a) (value b) Hbne). lia. }
  destruct (add_assign_spec fuel p r) as (s & Hs & Hvs & Hvals);
    [by apply valid_wf..|lia|].
  exists q, r, p, s. split_and!; try done.
  - apply operator_eq_true. apply valid_inj; [done..|].
    rewrite Hvals, Hvalp, Hvalq, Hvalr.
    pose proof (Z.quot_rem' (value a) (value b)). lia.
  - intros Hz. pose proof (is_zero_false_value r Hvr Hz) as Hne.
    rewrite Hvalr in Hne.
    pose proof (Z.rem_sign_nz (value a) (value b) Hbne Hne) as Hsgn.
    pose proof (value_sign a Ha) as Sa. pose proof (value_sign r Hvr) as Sr.
    rewrite Hvalr in Sr.
    destruct (m_negative r), (m_negative a); try done.
    + assert (Z.rem (value a) (value b) < 0) by (by apply Sr).
      assert (¬ value a < 0) by (rewrite <- Sa; done). lia.
    + assert (value a < 0) by (by apply Sa).
      assert (¬ Z.rem (value a) (value b) < 0) by (rewrite <- Sr; done). lia.
Qed.

Lemma truncated_division_law_minus5_by_2 :
  ∃ a b q r,
    BigInteger_of_string 40 (literal "-5") = Some a ∧
    BigInteger_of_string 40 (literal "2") = Some b ∧
    BigInteger_of_string 40 (literal "-2") = Some q ∧
    BigInteger_of_string 40 (literal "-1") = Some r ∧
    valid a ∧ valid b ∧ value b ≠ 0 ∧
    (length (m_digits a) + length (m_digits b) + 32 ≤ 40)%nat ∧
    ∃ p s,
      div_assign 40 a b = Some q ∧ mod_assign 40 a b = Some r ∧
      mul_assign 40 q b = Some p ∧ add_assign 40 p r = Some s ∧
      operator_eq a s = true ∧
      (is_zero r = false → m_negative r = m_negative a) ∧
      value q = Z.quot (value a) (value b) ∧
      value r = Z.rem (value a) (value b).
Proof.
  exists (mkBigInteger [5] true), (mkBigInteger [2] false),
         (mkBigInteger [2] true), (mkBigInteger [1] true).
  assert (Hv : valid (mkBigInteger [5] true)) by (vm_compute; reflexivity).
  assert (Hb : valid (mkBigInteger [2] false)) by (vm_compute; reflexivity).
  assert (Hne : value (mkBigInteger [2] false) ≠ 0) by (vm_compute; discriminate).
  assert (Hf : (length (m_digits (mkBigInteger [5%Z] true)) +
                length (m_digits (mkBigInteger [2%Z] false)) + 32 ≤ 40)%nat)
    by (vm_compute; lia).
  split; [vm_compute; reflexivity|]. split; [vm_compute; reflexivity|].
  split; [vm_compute; reflexivity|]. split; [vm_compute; reflexivity|].
  split; [exact Hv|]. split; [exact Hb|]. split; [exact Hne|]. split; [exact Hf|].
  destruct (truncated_division_law _ _ 40 Hv Hb Hne Hf)
    as (q & r & p & s & Hq & Hr & H).
  assert (q = mkBigInteger [2] true) as ->
    by (vm_compute in Hq; congruence).
  assert (r = mkBigInteger [1] true) as ->
    by (vm_compute in Hr; congruence).
  exists p, s. split; [exact Hq|]. split; [exact Hr|]. exact H.
Defined.

Lemma sum_length_le s x y n :
  valid s → Z.abs (value s) ≤ Z.abs x + Z.abs y →
  Z.abs x < CELL_BASE ^ Z.of_nat n → Z.abs y < CELL_BASE ^ Z.of_nat n →
  (length (m_digits s) ≤ n + 1)%nat.
Proof.
  intros Hs Hv Hx Hy. apply valid_length_le; [done| |lia].
  rewrite pow_base_add. change (Z.of_nat 1) with 1. rewrite Z.pow_1_r.
  pose proof CELL_BASE_bound. pose proof (pow_base_pos n). nia.
Qed.

Lemma wf_value_bound_le x n :
  wf x → (length (m_digits x) ≤ n)%nat → Z.abs (value x) < CELL_BASE ^ Z.of_nat n.
Proof.
  intros Hw Hn. rewrite <- value_magnitude by done.
  pose proof (limbs_value_bound _ (wf_limbs_ok _ Hw)).
  pose proof (pow_base_le _ _ Hn). lia.
Qed.

Lemma valid_value_bound_le x n :
  valid x → (length (m_digits x) ≤ n)%nat → Z.abs (value x) < CELL_BASE ^ Z.of_nat n.
Proof.
  intros Hv Hn. pose proof (valid_value_bound x Hv).
  pose proof (pow_base_le _ _ Hn). lia.
Qed.

(** Addition on the values of the data model: [a + b] is the exact integer
    sum.  When the signs match the
    magnitudes are added and the shared sign is kept; when they differ the
    smaller magnitude is subtracted from the larger one and the result has
    the sign of the operand with the larger magnitude.  The scenario
    [999999999 + 1 == 1000000000] is evaluated in
    [addition_is_exact_carry]. *)
Theorem addition_is_exact (a b : BigInteger) (fuel : nat) :
  valid a → valid b →
  (Nat.max (length (m_digits a)) (length (m_digits b)) < fuel)%nat →
  ∃ s, add_assign fuel a b = Some s ∧ valid s ∧
       value s = value a + value b ∧
       (m_negative a = m_negative b →
          add_assign fuel a b = add_abs fuel a b ∧
          limbs_value (m_digits s) =
            limbs_value (m_digits a) + limbs_value (m_digits b) ∧
          m_negative s = m_negative a) ∧
       (m_negative a ≠ m_negative b →
          limbs_value (m_digits a) < limbs_value (m_digits b) →
          (temp ← sub_abs fuel b a; Some (m_digits temp)) = Some (m_digits s) ∧
          limbs_value (m_digits s) =
            limbs_value (m_digits b) - limbs_value (m_digits a) ∧
          m_negative s = m_negative b) ∧
       (m_negative a ≠ m_negative b →
          limbs_value (m_digits b) < limbs_value (m_digits a) →
          add_assign fuel a b = sub_abs fuel a b ∧
          limbs_value (m_digits s) =
            limbs_value (m_digits a) - limbs_value (m_digits b) ∧
          m_negative s = m_negative a).
Proof.
  intros Ha Hb Hfuel.
  pose proof (valid_wf _ Ha) as Wa. pose proof (valid_wf _ Hb) as Wb.
  destruct (add_assign_spec fuel a b Wa Wb ltac:(lia)) as (s & Hs & Hvs & Hval).
  pose proof (value_sign a Ha) as Sa. pose proof (value_sign b Hb) as Sb.
  pose proof (value_sign s Hvs) as Ss.
  pose proof (value_magnitude a Wa) as Ma. pose proof (value_magnitude b Wb) as Mb.
  pose proof (value_magnitude s (valid_wf _ Hvs)) as Ms.
  assert (∀ x, (m_negative x = true ↔ value x < 0) →
               (m_negative x = false ↔ 0 ≤ value x)) as Hflip.
  { intros x Hx. destruct (m_negative x); split; try done; intros H.
    - assert (value x < 0) by (by apply Hx). lia.
    - destruct (Z.lt_ge_cases (value x) 0) as [Hlt|]; [|done].
      apply Hx in Hlt. done. }
  pose proof (Hflip a Sa) as Fa. pose proof (Hflip b Sb) as Fb.
  pose proof (Hflip s Ss) as Fs.
  exists s. split; [done|]. split; [done|]. split; [done|]. split_and!.
  - intros Hsign. split_and!.
    + unfold add_assign. by rewrite Hsign, Bool.eqb_reflx.
    + rewrite Ms, Ma, Mb, Hval. destruct (m_negative a) eqn:Ea.
      * assert (value a < 0) by (by apply Sa).
        assert (value b < 0) by (apply Sb; congruence). lia.
      * assert (0 ≤ value a) by (by apply Fa).
        assert (0 ≤ value b) by (apply Fb; congruence). lia.
    + destruct (m_negative a) eqn:Ea.
      * assert (value a < 0) by (by apply Sa).
        assert (value b < 0) by (apply Sb; congruence). apply Ss. lia.
      * assert (0 ≤ value a) by (by apply Fa).
        assert (0 ≤ value b) by (apply Fb; congruence). apply Fs. lia.
  - intros Hsign Hlt.
    assert (add_assign fuel a b =
            temp ← sub_abs fuel b a; Some (mkBigInteger (m_digits temp) (m_negative b)))
      as Hpath.
    { unfold add_assign.
      destruct (Bool.eqb_spec (m_negative a) (m_negative b)); [done|].
      rewrite operator_lt_spec, !value_abs by (by apply valid_abs).
      by destruct (Z.ltb_spec (limbs_value (m_digits a)) (limbs_value (m_digits b))); [|lia]. }
    rewrite Hs in Hpath.
    split_and!.
    + destruct (sub_abs fuel b a) as [temp|]; simpl in *; [|done].
      injection Hpath as ->. done.
    + rewrite Ms, Ma, Mb, Hval in *.
      destruct (m_negative a) eqn:Ea, (m_negative b) eqn:Eb; try done.
      * assert (value a < 0) by (by apply Sa). assert (0 ≤ value b) by (by apply Fb). lia.
      * assert (value b < 0) by (by apply Sb). assert (0 ≤ value a) by (by apply Fa). lia.
    + rewrite Ma, Mb in Hlt.
      destruct (m_negative a) eqn:Ea, (m_negative b) eqn:Eb; try done.
      * assert (value a < 0) by (by apply Sa). assert (0 ≤ value b) by (by apply Fb).
        apply Fs. lia.
      * assert (value b < 0) by (by apply Sb). assert (0 ≤ value a) by (by apply Fa).
        apply Ss. lia.
  - intros Hsign Hlt. split_and!.
    + unfold add_assign.
      destruct (Bool.eqb_spec (m_negative a) (m_negative b)); [done|].
      rewrite operator_lt_spec, !value_abs by (by apply valid_abs).
      by destruct (Z.ltb_spec (limbs_value (m_digits a)) (limbs_value (m_digits b))); [lia|].
    + rewrite Ms, Ma, Mb, Hval in *.
      destruct (m_negative a) eqn:Ea, (m_negative b) eqn:Eb; try done.
      * assert (value a < 0) by (by apply Sa). assert (0 ≤ value b) by (by apply Fb). lia.
      * assert (value b < 0) by (by apply Sb). assert (0 ≤ value a) by (by apply Fa). lia.
    + rewrite Ma, Mb in Hlt.
      destruct (m_negative a) eqn:Ea, (m_negative b) eqn:Eb; try done.
      * assert (value a < 0) by (by apply Sa). assert (0 ≤ value b) by (by apply Fb).
        apply Ss. lia.
      * assert (value b < 0) by (by apply Sb). assert (0 ≤ value a) by (by apply Fa).
        apply Fs. lia.
Qed.

Lemma addition_is_exact_carry :
  ∃ a b c,
    BigInteger_of_string 40 (literal "999999999") = Some a ∧
    BigInteger_of_string 40 (literal "1") = Some b ∧
    BigInteger_of_string 40 (literal "1000000000") = Some c ∧
    valid a ∧ valid b ∧
    (Nat.max (length (m_digits a)) (length (m_digits b)) < 40)%nat ∧
    add_assign 40 a b = Some c ∧ operator_eq c c = true ∧
    value c = value a + value b.
Proof.
  exists (mkBigInteger [999999999] false), (mkBigInteger [1] false),
         (mkBigInteger [0; 1] false).
  assert (Ha : valid (mkBigInteger [999999999] false)) by (vm_compute; reflexivity).
  assert (Hb : valid (mkBigInteger [1] false)) by (vm_compute; reflexivity).
  assert (Hf : (Nat.max (length (m_digits (mkBigInteger [999999999%Z] false)))
                  (length (m_digits (mkBigInteger [1%Z] false))) < 40)%nat)
    by (vm_compute; lia).
  split; [vm_compute; reflexivity|]. split; [vm_compute; reflexivity|].
  split; [vm_compute; reflexivity|].
  split; [exact Ha|]. split; [exact Hb|]. split; [exact Hf|].
  destruct (addition_is_exact _ _ 40 Ha Hb Hf) as (s & Hs & _ & Hval & _).
  assert (s = mkBigInteger [0; 1] false) as -> by (vm_compute in Hs; congruence).
  split; [exact Hs|]. split; [vm_compute; reflexivity|]. exact Hval.
Defined.



(** Dividing [BigInteger(0)] by [BigInteger(0)] takes the equal-magnitudes
    path of [operator/=] and yields 1 without any error; [0 % 0] is then
    0. *)
Theorem zero_divided_by_zero (fuel : nat) :
  (2 ≤ fuel)%nat →
  ∃ zero one,
    BigInteger_of_int fuel 0 = Some zero ∧ BigInteger_of_int fuel 1 = Some one ∧
    operator_eq (abs zero) (abs zero) = true ∧
    div_assign fuel zero zero = Some one ∧
    mod_assign fuel zero zero = Some zero.
Proof.
  intros Hfuel. pose proof CELL_BASE_bound as HB.
  exists (mkBigInteger [0] false), (mkBigInteger [1] false).
  rewrite !BigInteger_of_int_small by lia.
  assert (Hdiv : div_assign fuel (mkBigInteger [0] false) (mkBigInteger [0] false)
                 = Some (mkBigInteger [1] false)) by done.
  split_and!; try done.
  unfold mod_assign. rewrite Hdiv. simpl.
  destruct (mul_assign_spec fuel (mkBigInteger [1] false) (mkBigInteger [0] false))
    as (prod & Hprod & Vprod & Eprod); [done..|simpl; lia|].
  rewrite Hprod. simpl.
  assert (prod = mkBigInteger [0] false) as ->.
  { apply valid_inj; [done..|]. rewrite Eprod, !value_small. lia. }
  done.
Qed.

Lemma zero_divided_by_zero_example :
  (2 ≤ 2)%nat ∧
  ∃ zero one,
    BigInteger_of_int 2 0 = Some zero ∧ BigInteger_of_int 2 1 = Some one ∧
    operator_eq (abs zero) (abs zero) = true ∧
    div_assign 2 zero zero = Some one ∧
    mod_assign 2 zero zero = Some zero.
Proof.
  split; [lia|]. apply zero_divided_by_zero. lia.
Defined.

(** ** Division by zero *)

Lemma value_default : value BigInteger_default = 0.
Proof. rewrite value_unfold. simpl. lia. Qed.

Lemma valid_default : valid BigInteger_default.
Proof. done. Qed.

(** With a zero divisor every product [b * mid] is zero, so the binary
    search walks to the top of its range. *)
Lemma quotient_search_zero fuel cur :
  valid cur → 0 ≤ value cur → (30 ≤ fuel)%nat →
  quotient_search fuel fuel BigInteger_default cur 0 (CELL_BASE - 1) 0
  = Some (CELL_BASE - 1).
Proof.
  intros Hcur Hc Hfuel. pose proof CELL_BASE_bound as HB.
  destruct (quotient_search_spec fuel BigInteger_default cur fuel 0 (CELL_BASE - 1) 0)
    as (v & Hv & Bv & _ & Hup); try done; try lia.
  - pose proof (pow2_fuel fuel Hfuel). lia.
  - rewrite Hv. f_equal.
    destruct (decide (v = CELL_BASE - 1)) as [|Hne]; [done|].
    specialize (Hup (CELL_BASE - 1) ltac:(lia)). rewrite value_default in Hup. lia.
Qed.

Lemma div_loop_zero fuel a :
  limbs_ok (m_digits a) → (length (m_digits a) + 32 ≤ fuel)%nat →
  ∀ k cur result,
    (k ≤ length (m_digits a))%nat →
    valid cur → value cur = limbs_value (drop k (m_digits a)) →
    length (m_digits result) = length (m_digits a) →
    div_loop fuel k a BigInteger_default cur result =
    Some (mkBigInteger (replicate k (CELL_BASE - 1) ++ drop k (m_digits result))
            (m_negative result)).
Proof.
  intros Ha Hfuel. pose proof CELL_BASE_bound as HB.
  induction k as [|iter IH]; intros cur result Hk Hcur Hval Hlen.
  { simpl. rewrite drop_0. by destruct result. }
  destruct (lookup_lt_is_Some_2 (m_digits a) iter ltac:(lia)) as [d Hd].
  pose proof (limbs_ok_lookup _ _ _ Ha Hd) as Bd.
  pose proof (limbs_value_nonneg _ (limbs_ok_drop _ (S iter) Ha)) as Hnn.
  destruct (div_fold_limb cur d Hcur ltac:(lia) Bd) as [Hcur1 Hval1].
  simpl div_loop. rewrite Hd. simpl.
  set (cur1 := remove_leading_zeroes _) in *.
  rewrite Hval, <- (limbs_value_drop_lookup _ _ _ Hd) in Hval1.
  pose proof (limbs_value_bound _ (limbs_ok_drop _ iter Ha)) as Hbd.
  rewrite length_drop in Hbd.
  rewrite i32_small by lia.
  rewrite quotient_search_zero by (done || lia). simpl.
  rewrite BigInteger_of_int_small by lia. simpl.
  destruct (mul_assign_spec fuel BigInteger_default (mkBigInteger [CELL_BASE - 1] false))
    as (prod & Hprod & Vprod & Eprod).
  { done. }
  { apply limbs_ok_cons. split; [lia|done]. }
  { simpl. lia. }
  rewrite value_default in Eprod. rewrite Hprod. simpl.
  assert (length (m_digits cur1) ≤ length (m_digits a))%nat as Hl1.
  { apply valid_length_le; [done| |lia].
    pose proof (pow_base_le (length (m_digits a) - iter) (length (m_digits a)) ltac:(lia)).
    lia. }
  assert (length (m_digits prod) ≤ 1)%nat as Hlp.
  { apply valid_length_le; [done| |lia]. rewrite Eprod. simpl. lia. }
  destruct (sub_assign_spec fuel cur1 prod Hcur1 Vprod ltac:(lia))
    as (cur2 & Hsub & Hcur2 & Hval2).
  rewrite Hsub. simpl.
  rewrite u32_small by lia.
  destruct (Nat.ltb_spec iter (length (m_digits result))); [|lia].
  rewrite IH; [|lia|done|lia|simpl; by rewrite length_insert].
  f_equal. cbn [m_digits m_negative]. f_equal.
  destruct (lookup_lt_is_Some_2 (m_digits result) iter ltac:(lia)) as [old Hold].
  assert (<[iter := CELL_BASE - 1]> (m_digits result) !! iter = Some (CELL_BASE - 1))
    as Hnew by (by apply list_lookup_insert_eq).
  rewrite (drop_S _ _ _ Hnew), drop_insert_lt by lia.
  generalize (drop (S iter) (m_digits result)). intros tl.
  clear. induction iter as [|n IHn]; simpl; [done|]. by rewrite IHn.
Qed.

Lemma div_assign_by_zero fuel a :
  wf a → (length (m_digits a) + 32 ≤ fuel)%nat →
  div_assign fuel a BigInteger_default =
  Some (if decide (limbs_value (m_digits a) = 0)
        then mkBigInteger [1] (m_negative a)
        else mkBigInteger (replicate (length (m_digits a)) (CELL_BASE - 1))
               (m_negative a)).
Proof.
  intros Wa Hfuel. pose proof CELL_BASE_bound as HB.
  pose proof (limbs_value_nonneg _ (wf_limbs_ok _ Wa)) as NA.
  pose proof (wf_length _ Wa) as Hlen.
  unfold div_assign.
  assert (negb (Bool.eqb (m_negative a) (m_negative BigInteger_default)) = m_negative a)
    as -> by (by destruct (m_negative a)).
  rewrite operator_eq_spec, operator_lt_spec by (done || by apply valid_abs).
  change (abs BigInteger_default) with BigInteger_default.
  rewrite value_abs, value_default.
  destruct (decide (limbs_value (m_digits a) = 0)) as [Hz|Hnz].
  { by rewrite bool_decide_eq_true_2. }
  rewrite bool_decide_eq_false_2 by done.
  destruct (Z.ltb_spec (limbs_value (m_digits a)) 0); [lia|].
  simpl m_digits.
  replace (length (m_digits a) - 1 + 1)%nat with (length (m_digits a)) by lia.
  rewrite (div_loop_zero fuel (abs a)); simpl; try done.
  - rewrite drop_ge by (rewrite length_resize; lia). rewrite app_nil_r.
    rewrite remove_leading_zeroes_id; simpl; [done| |].
    + destruct (length (m_digits a)) as [|n]; [lia|].
      rewrite replicate_S_end. apply normalized_snoc. lia.
    + left. destruct (length (m_digits a)) as [|n]; [lia|]. simpl.
      intros E. injection E as E1 E2. lia.
  - by apply wf_limbs_ok.
  - by rewrite drop_all, value_default.
  - rewrite length_resize. lia.
Qed.

Lemma mod_assign_by_zero fuel a :
  valid a → (length (m_digits a) + 32 ≤ fuel)%nat →
  mod_assign fuel a BigInteger_default = Some a.
Proof.
  intros Ha Hfuel. pose proof CELL_BASE_bound as HB. unfold mod_assign.
  rewrite div_assign_by_zero by (by apply valid_wf || lia). simpl.
  set (q := if decide _ then _ else _).
  destruct (mul_assign_spec fuel q BigInteger_default) as (prod & Hprod & Vprod & Eprod).
  - unfold q. destruct (decide _); simpl; [done|].
    apply limbs_ok_Forall, Forall_replicate. lia.
  - done.
  - simpl. lia.
  - rewrite Hprod. simpl. rewrite value_default in Eprod.
    assert (length (m_digits prod) ≤ 1)%nat as Hlp.
    { apply valid_length_le; [done| |lia]. rewrite Eprod. simpl. lia. }
    destruct (sub_assign_spec fuel a prod Ha Vprod ltac:(lia)) as (r & Hr & Vr & Er).
    rewrite Hr. f_equal. apply valid_inj; [done..|]. lia.
Qed.

(** * The claims about text conversion *)

Lemma forallb_false_lookup {A} (f : A → bool) (l : list A) j c :
  l !! j = Some c → f c = false → forallb f l = false.
Proof.
  revert j. induction l as [|x l IH]; intros [|j] Hj Hc; simpl in *; try done.
  - injection Hj as ->. by rewrite Hc.
  - rewrite (IH j Hj Hc). apply andb_false_r.
Qed.

Lemma is_correct_str_false s i c :
  s !! i = Some c → isdigit c = false → (i = 0%nat → is_sign c = false) →
  is_correct_str s = false.
Proof.
  intros Hi Hc Hsign. destruct s as [|c0 s]; [done|].
  unfold is_correct_str.
  destruct i as [|i].
  - simpl in Hi. injection Hi as ->. rewrite Hsign by done.
    simpl. by rewrite Hc.
  - destruct (is_sign c0).
    + simpl drop. rewrite drop_0. simpl in Hi. by eapply forallb_false_lookup.
    + rewrite drop_0. by eapply (forallb_false_lookup _ _ (S i)).
Qed.

(** C8. A string with a character that is neither an ASCII digit nor a sign
    in the first position makes the string constructor return zero; no
    failure is signalled. *)
Theorem malformed_string_gives_zero (s : list ascii) (i : nat) (c : ascii)
    (fuel : nat) :
  s !! i = Some c → isdigit c = false → (i = 0%nat → is_sign c = false) →
  BigInteger_of_string fuel s = Some BigInteger_default ∧
  (zero ← BigInteger_of_int fuel 0; x ← BigInteger_of_string fuel s;
   Some (operator_eq x zero)) = Some true.
Proof.
  intros Hi Hc Hsign.
  assert (BigInteger_of_string fuel s = Some BigInteger_default) as Hs.
  { unfold BigInteger_of_string.
    rewrite (is_correct_str_false s i c Hi Hc Hsign). simpl.
    by rewrite orb_true_r. }
  split; [done|]. rewrite Hs. by destruct fuel.
Qed.

Lemma malformed_string_gives_zero_example :
  literal "12x" !! 2%nat = Some "x"%char ∧ isdigit "x" = false ∧
  (2%nat = 0%nat → is_sign "x" = false) ∧
  BigInteger_of_string 40 (literal "12x") = Some BigInteger_default ∧
  (zero ← BigInteger_of_int 40 0; x ← BigInteger_of_string 40 (literal "12x");
   Some (operator_eq x zero)) = Some true.
Proof.
  assert (H1 : literal "12x" !! 2%nat = Some "x"%char) by reflexivity.
  assert (H2 : isdigit "x" = false) by reflexivity.
  assert (H3 : 2%nat = 0%nat → is_sign "x" = false) by (intros; reflexivity).
  split; [exact H1|]. split; [exact H2|]. split; [exact H3|].
  exact (malformed_string_gives_zero _ _ _ 40 H1 H2 H3).
Defined.

(** * The Rational layer *)

Lemma operator_neg_spec fuel x :
  valid x → (1 ≤ fuel)%nat → returns (operator_neg fuel x) (- value x).
Proof.
  intros Hx Hfuel. pose proof CELL_BASE_bound as HB. unfold operator_neg.
  rewrite BigInteger_of_int_small by lia. simpl.
  unfold operator_ne. rewrite operator_eq_spec, value_small by done.
  destruct (decide (value x = 0)) as [Hz|Hnz].
  - rewrite bool_decide_eq_true_2 by done. simpl.
    apply (returns_intro _ x); [done..|lia].
  - rewrite bool_decide_eq_false_2 by done. simpl.
    eapply returns_intro; [done|by apply valid_flip|].
    rewrite !value_unfold. simpl. destruct (m_negative x); simpl; lia.
Qed.

Lemma gcd_loop_S fuel n a b :
  gcd_loop fuel (S n) a b =
  zero ← BigInteger_of_int fuel 0;
  if operator_ne b zero then a' ← mod_assign fuel a b; gcd_loop fuel n b a'
  else Some a.
Proof. done. Qed.

Lemma gcd_loop_spec fuel : ∀ n a b,
  valid a → valid b → 0 ≤ value a → 0 ≤ value b →
  (Z.to_nat (value b) < n)%nat →
  (2 * Nat.max (length (m_digits a)) (length (m_digits b)) + 32 ≤ fuel)%nat →
  returns (gcd_loop fuel n a b) (Z.gcd (value a) (value b)).
Proof.
  pose proof CELL_BASE_bound as HB.
  induction n as [|n IH]; intros a b Ha Hb Na Nb Hn Hfuel; [lia|].
  rewrite gcd_loop_S, BigInteger_of_int_small by lia. simpl.
  unfold operator_ne. rewrite operator_eq_spec, value_small by done.
  destruct (decide (value b = 0)) as [Hz|Hnz].
  - rewrite bool_decide_eq_true_2 by done. simpl.
    apply (returns_intro _ a); [done..|]. rewrite Hz, Z.gcd_0_r. lia.
  - rewrite bool_decide_eq_false_2 by done. simpl.
    destruct (mod_assign_spec fuel a b Ha Hb Hnz ltac:(lia)) as (r & Hr & Vr & Er).
    rewrite Hr. simpl.
    pose proof (Z.rem_bound_abs (value a) (value b) Hnz) as Hbound.
    assert (0 ≤ value r) as Nr.
    { rewrite Er. destruct (Z.rem_bound_pos (value a) (value b)); lia. }
    assert (length (m_digits r) ≤ length (m_digits b))%nat as Hlr.
    { apply valid_length_le; [done| |by apply wf_length, valid_wf].
      pose proof (valid_value_bound b Hb). lia. }
    rewrite Z.gcd_comm, <- (Z.gcd_rem (value a) (value b)) by done.
    rewrite Z.gcd_comm, <- Er.
    apply IH; try done; lia.
Qed.

Lemma gcd_spec fuel a b :
  valid a → valid b →
  (Z.to_nat (Z.abs (value b)) < fuel)%nat →
  (2 * Nat.max (length (m_digits a)) (length (m_digits b)) + 32 ≤ fuel)%nat →
  returns (gcd fuel a b) (Z.gcd (value a) (value b)).
Proof.
  intros Ha Hb Hn Hfuel. unfold gcd.
  pose proof (valid_wf _ Ha) as Wa. pose proof (valid_wf _ Hb) as Wb.
  rewrite <- Z.gcd_abs_l, <- Z.gcd_abs_r.
  rewrite <- !value_magnitude, <- !value_abs by done.
  pose proof (limbs_value_nonneg _ (wf_limbs_ok _ Wa)).
  pose proof (limbs_value_nonneg _ (wf_limbs_ok _ Wb)).
  apply gcd_loop_spec; try (by apply valid_abs); rewrite ?value_abs; try done.
  rewrite value_magnitude by done. lia.
Qed.

Lemma lowest_terms_inv r :
  lowest_terms r ↔
  valid (numerator r) ∧ valid (denominator r) ∧ 0 < value (denominator r) ∧
  Z.gcd (Z.abs (value (numerator r))) (Z.abs (value (denominator r))) = 1.
Proof.
  unfold lowest_terms, lowest_termsb, valid.
  rewrite !andb_true_iff, Z.ltb_lt, Z.eqb_eq. tauto.
Qed.



Lemma mul_assign_length fuel a b la lb :
  valid a → valid b →
  (length (m_digits a) ≤ la)%nat → (length (m_digits b) ≤ lb)%nat →
  (lb < fuel)%nat →
  ∃ p, mul_assign fuel a b = Some p ∧ valid p ∧ value p = value a * value b ∧
       (length (m_digits p) ≤ la + lb)%nat.
Proof.
  intros Ha Hb Hla Hlb Hfuel.
  destruct (mul_assign_spec fuel a b) as (p & Hp & Vp & Ep);
    [by apply valid_limbs_ok..|lia|].
  exists p. split_and!; try done.
  pose proof (wf_length _ (valid_wf _ Ha)).
  apply valid_length_le; [done| |lia].
  pose proof (valid_value_bound_le a la Ha Hla).
  pose proof (valid_value_bound_le b lb Hb Hlb).
  rewrite Ep, Z.abs_mul, pow_base_add. nia.
Qed.




(** * Decimal text *)

Lemma isdigit_inv c :
  isdigit c = true → 0 ≤ digit_val c ≤ 9 ∧ c = digit_char (digit_val c).
Proof.
  unfold isdigit, digit_val, digit_char. intros [H1 H2]%andb_true_iff.
  apply Nat.leb_le in H1, H2. split; [lia|].
  replace (48 + Z.to_nat (Z.of_nat (nat_of_ascii c) - 48))%nat with (nat_of_ascii c) by lia.
  by rewrite ascii_nat_embedding.
Qed.

Lemma digit_char_val d : 0 ≤ d ≤ 9 → digit_val (digit_char d) = d.
Proof.
  intros H. unfold digit_val, digit_char.
  rewrite nat_ascii_embedding by lia. lia.
Qed.

Lemma isdigit_digit_char d : 0 ≤ d ≤ 9 → isdigit (digit_char d) = true.
Proof.
  intros H. unfold isdigit, digit_char.
  rewrite nat_ascii_embedding by lia.
  apply andb_true_iff. split; apply Nat.leb_le; lia.
Qed.

Lemma digit_val_inj c1 c2 :
  isdigit c1 = true → isdigit c2 = true → digit_val c1 = digit_val c2 → c1 = c2.
Proof.
  intros [_ E1]%isdigit_inv [_ E2]%isdigit_inv Hv. rewrite E1, E2. by rewrite Hv.
Qed.

Lemma all_digits_cons c s : all_digits (c :: s) ↔ isdigit c = true ∧ all_digits s.
Proof. unfold all_digits. simpl. by rewrite andb_true_iff. Qed.

Lemma all_digits_app s1 s2 : all_digits (s1 ++ s2) ↔ all_digits s1 ∧ all_digits s2.
Proof. unfold all_digits. by rewrite forallb_app, andb_true_iff. Qed.

Lemma all_digits_nil : all_digits [].
Proof. done. Qed.

Lemma all_digits_take s n : all_digits s → all_digits (take n s).
Proof.
  intros H. rewrite <- (take_drop n s) in H. by apply all_digits_app in H as [? _].
Qed.

Lemma all_digits_drop s n : all_digits s → all_digits (drop n s).
Proof.
  intros H. rewrite <- (take_drop n s) in H. by apply all_digits_app in H as [_ ?].
Qed.

Lemma all_digits_zeros n : all_digits (replicate n "0"%char).
Proof. induction n as [|n IH]; [done|]. by apply all_digits_cons. Qed.

Lemma stoul_foldl acc s :
  foldl (λ acc c, acc * 10 + digit_val c) acc s =
  acc * 10 ^ Z.of_nat (length s) + stoul s.
Proof.
  unfold stoul. revert acc. induction s as [|c s IH]; intros acc.
  - simpl. lia.
  - simpl foldl. rewrite IH, (IH (0 * 10 + digit_val c)).
    simpl length. rewrite Nat2Z.inj_succ, Z.pow_succ_r by lia. lia.
Qed.

Lemma stoul_nil : stoul [] = 0.
Proof. done. Qed.

Lemma stoul_cons c s :
  stoul (c :: s) = digit_val c * 10 ^ Z.of_nat (length s) + stoul s.
Proof. unfold stoul at 1. simpl foldl. rewrite stoul_foldl. lia. Qed.

Lemma stoul_app s1 s2 :
  stoul (s1 ++ s2) = stoul s1 * 10 ^ Z.of_nat (length s2) + stoul s2.
Proof.
  unfold stoul at 1. rewrite foldl_app. fold (stoul s1). apply stoul_foldl.
Qed.

Lemma stoul_bound s : all_digits s → 0 ≤ stoul s < 10 ^ Z.of_nat (length s).
Proof.
  induction s as [|c s IH]; intros H.
  - simpl. rewrite stoul_nil. lia.
  - apply all_digits_cons in H as [[Hc _]%isdigit_inv Hs]. specialize (IH Hs).
    rewrite stoul_cons. simpl length. rewrite Nat2Z.inj_succ, Z.pow_succ_r by lia. nia.
Qed.

Lemma stoul_zeros n s : stoul (replicate n "0"%char ++ s) = stoul s.
Proof.
  induction n as [|n IH]; [done|]. simpl. rewrite stoul_cons, IH.
  change (digit_val "0") with 0. lia.
Qed.

(** Digit strings of one length and one value are the same string. *)
Lemma stoul_inj_length s1 s2 :
  all_digits s1 → all_digits s2 → length s1 = length s2 →
  stoul s1 = stoul s2 → s1 = s2.
Proof.
  revert s2. induction s1 as [|c1 s1 IH]; intros [|c2 s2] H1 H2 Hlen Hv; try done.
  apply all_digits_cons in H1 as [Hc1 Hs1]. apply all_digits_cons in H2 as [Hc2 Hs2].
  simpl in Hlen. injection Hlen as Hlen.
  rewrite !stoul_cons, <- Hlen in Hv.
  pose proof (stoul_bound s1 Hs1) as B1. pose proof (stoul_bound s2 Hs2) as B2.
  rewrite <- Hlen in B2.
  destruct (base_decomp_unique (10 ^ Z.of_nat (length s1)) (stoul s1) (stoul s2)
              (digit_val c1) (digit_val c2)) as [Hs Hc]; [done|done|lia|].
  f_equal; [by apply digit_val_inj|by apply IH].
Qed.

Lemma no_leading_zero_lower s :
  all_digits s → no_leading_zero s = true →
  s = ["0"%char] ∨ 10 ^ Z.of_nat (length s - 1) ≤ stoul s.
Proof.
  destruct s as [|c s]; [done|]. intros [Hc Hs]%all_digits_cons Hz.
  simpl in Hz. apply orb_true_iff in Hz as [Hz|Hz].
  - right. simpl. rewrite Nat.sub_0_r, stoul_cons.
    pose proof (stoul_bound s Hs). destruct (isdigit_inv c Hc) as [Hv Ec].
    assert (digit_val c ≠ 0).
    { intros E. rewrite E in Ec. rewrite Ec in Hz. done. }
    assert (0 < 10 ^ Z.of_nat (length s)) by (apply Z.pow_pos_nonneg; lia). nia.
  - apply bool_decide_eq_true in Hz as ->.
    destruct (Ascii.eqb_spec c "0") as [->|Hne]; [by left|].
    right. simpl. rewrite stoul_cons, stoul_nil. simpl.
    destruct (isdigit_inv c Hc) as [Hv Ec].
    assert (digit_val c ≠ 0); [|lia].
    intros E. rewrite E in Ec. done.
Qed.

(** A value has one digit string without a leading zero. *)
Lemma stoul_inj s1 s2 :
  all_digits s1 → all_digits s2 →
  no_leading_zero s1 = true → no_leading_zero s2 = true →
  stoul s1 = stoul s2 → s1 = s2.
Proof.
  intros H1 H2 N1 N2 Hv.
  assert (∀ a b, all_digits a → all_digits b → no_leading_zero a = true →
            no_leading_zero b = true → stoul a = stoul b →
            (length a < length b)%nat → False) as Hlt.
  { intros a b Ha Hb Na Nb Hab Hlen.
    pose proof (stoul_bound a Ha) as Ba.
    destruct (no_leading_zero_lower b Hb Nb) as [->|Hlow].
    - simpl in Hlen. destruct a; [done|simpl in Hlen; lia].
    - assert (10 ^ Z.of_nat (length a) ≤ 10 ^ Z.of_nat (length b - 1))
        by (apply Z.pow_le_mono_r; lia). lia. }
  apply stoul_inj_length; try done.
  destruct (Nat.lt_total (length s1) (length s2)) as [Hl|[Hl|Hl]]; [|done|].
  - destruct (Hlt s1 s2); done.
  - destruct (Hlt s2 s1); done.
Qed.

Lemma stoul_single c : stoul [c] = digit_val c.
Proof. rewrite stoul_cons, stoul_nil. cbn [length]. change (10 ^ Z.of_nat 0) with 1. lia. Qed.

Lemma no_leading_zero_app s1 s2 :
  no_leading_zero s1 = true → stoul s1 ≠ 0 → no_leading_zero (s1 ++ s2) = true.
Proof.
  destruct s1 as [|c s1]; [done|]. simpl. intros Hz Hv.
  apply orb_true_iff in Hz as [Hz|Hz]; [by rewrite Hz|].
  apply bool_decide_eq_true in Hz as ->.
  destruct (Ascii.eqb_spec c "0") as [->|Hne]; [|done].
  by rewrite stoul_cons, stoul_nil in Hv.
Qed.

Lemma to_string_loop_spec n : ∀ k v acc,
  0 ≤ v < 10 ^ Z.of_nat k → (1 ≤ k ≤ n)%nat →
  ∃ ds, to_string_loop n v acc = ds ++ acc ∧ all_digits ds ∧
        no_leading_zero ds = true ∧ stoul ds = v ∧ (1 ≤ length ds ≤ k)%nat.
Proof.
  induction n as [|n IH]; intros k v acc Hv Hk; [lia|].
  simpl to_string_loop.
  pose proof (Z.div_mod v 10 ltac:(lia)) as Hdm.
  pose proof (Z.mod_pos_bound v 10 ltac:(lia)) as Hm.
  destruct (Z.eqb_spec (v / 10) 0) as [Hz|Hnz].
  - exists [digit_char (v mod 10)]. split_and!; try done.
    + apply all_digits_cons. split; [apply isdigit_digit_char; lia|done].
    + unfold no_leading_zero. rewrite bool_decide_eq_true_2 by done.
      apply orb_true_r.
    + rewrite stoul_single, digit_char_val by lia. lia.
    + cbn [length]. lia.
  - assert (2 ≤ k)%nat as Hk2.
    { destruct (decide (k = 1)%nat) as [->|]; [|lia].
      change (10 ^ Z.of_nat 1) with 10 in Hv. lia. }
    assert (0 ≤ v / 10 < 10 ^ Z.of_nat (k - 1)) as Hq.
    { replace (Z.of_nat k) with (Z.succ (Z.of_nat (k - 1))) in Hv by lia.
      rewrite Z.pow_succ_r in Hv by lia. lia. }
    destruct (IH (k - 1)%nat (v / 10) (digit_char (v mod 10) :: acc) Hq ltac:(lia))
      as (ds & Hds & Hd & Hnz' & Hval & Hlen).
    exists (ds ++ [digit_char (v mod 10)]). split_and!.
    + by rewrite Hds, <- app_assoc.
    + apply all_digits_app. split; [done|].
      apply all_digits_cons. split; [apply isdigit_digit_char; lia|done].
    + apply no_leading_zero_app; [done|lia].
    + rewrite stoul_app, Hval, stoul_single, digit_char_val by lia.
      cbn [length]. change (10 ^ Z.of_nat 1) with 10. lia.
    + rewrite length_app. cbn [length]. lia.
    + rewrite length_app. cbn [length]. lia.
Qed.

Lemma to_string_spec v k :
  0 ≤ v < 10 ^ Z.of_nat k → (1 ≤ k ≤ 20)%nat →
  all_digits (to_string v) ∧ no_leading_zero (to_string v) = true ∧
  stoul (to_string v) = v ∧ (1 ≤ length (to_string v) ≤ k)%nat.
Proof.
  intros Hv Hk. unfold to_string.
  destruct (to_string_loop_spec 20 k v [] Hv Hk) as (ds & Hds & H).
  rewrite app_nil_r in Hds. by rewrite Hds.
Qed.

Lemma pow10_base n : 10 ^ Z.of_nat (9 * n) = CELL_BASE ^ Z.of_nat n.
Proof.
  rewrite CELL_BASE_eq. change 1000000000 with (10 ^ 9).
  rewrite <- Z.pow_mul_r by lia. f_equal. lia.
Qed.

Lemma to_string_limb d :
  0 ≤ d < CELL_BASE →
  all_digits (to_string d) ∧ no_leading_zero (to_string d) = true ∧
  stoul (to_string d) = d ∧ (1 ≤ length (to_string d) ≤ 9)%nat.
Proof.
  intros Hd. apply to_string_spec; [|lia].
  rewrite CELL_BASE_eq in Hd. change (10 ^ Z.of_nat 9) with 1000000000. lia.
Qed.

Lemma toString_loop_spec digits : ∀ k,
  limbs_ok digits → (k ≤ length digits)%nat →
  ∃ R, toString_loop k digits = Some R ∧ all_digits R ∧
       length R = (9 * k)%nat ∧ stoul R = limbs_value (take k digits).
Proof.
  intros k Hok. induction k as [|i IH]; intros Hk.
  - exists []. by rewrite take_0.
  - destruct IH as (R & HR & Hd & Hl & Hv); [lia|].
    destruct (lookup_lt_is_Some_2 digits i ltac:(lia)) as [d Hdi].
    pose proof (limbs_ok_lookup _ _ _ Hok Hdi) as Bd.
    destruct (to_string_limb d Bd) as (Sd & _ & Sv & Sl).
    cbn [toString_loop]. rewrite Hdi. cbn [mbind option_bind].
    change (Z.to_nat CELL_LEN) with 9%nat.
    destruct (Nat.ltb_spec 9 (length (to_string d))); [lia|].
    rewrite HR. cbn [mbind option_bind]. eexists. split; [reflexivity|]. split_and!.
    + apply all_digits_app. split; [apply all_digits_zeros|].
      by apply all_digits_app.
    + rewrite !length_app, length_replicate. lia.
    + rewrite stoul_zeros, stoul_app, Sv, Hv, Hl, pow10_base.
      rewrite (take_S_r _ _ _ Hdi), limbs_value_app, length_take.
      rewrite Nat.min_l by lia. cbn [limbs_value]. lia.
Qed.

(** [toString] prints the sign and then the decimal digits of the
    magnitude, without a leading zero. *)
Lemma toString_spec x :
  valid x →
  ∃ S, toString x = Some ((if m_negative x then ["-"%char] else []) ++ S) ∧
       all_digits S ∧ no_leading_zero S = true ∧
       stoul S = limbs_value (m_digits x) ∧
       (length S ≤ 9 * length (m_digits x))%nat.
Proof.
  intros Hx. pose proof (valid_inv x) as [Hinv _]. destruct (Hinv Hx) as [Wx Hz].
  apply wf_inv in Wx as [Hok Hn]. unfold toString.
  destruct (is_zero x) eqn:Ez.
  - apply is_zero_spec in Ez. rewrite (Hz Ez), Ez. exists ["0"%char].
    split_and!; [reflexivity..| |cbn [length]; lia]. rewrite stoul_single.
    change (digit_val "0") with 0. cbn [limbs_value]. lia.
  - apply normalized_inv in Hn as (l' & top & El & Htop).
    assert (top ≠ 0) as Hne.
    { destruct Htop as [?| ->]; [done|]. intros ->. simpl in El.
      apply is_zero_spec in El. congruence. }
    rewrite El in *. rewrite last_snoc. cbn [mbind option_bind].
    rewrite length_app. cbn [length].
    replace (length l' + 1 - 1)%nat with (length l') by lia.
    destruct (toString_loop_spec (l' ++ [top]) (length l') Hok) as (R & HR & Hd & Hl & Hv).
    { rewrite length_app. lia. }
    rewrite HR. cbn [mbind option_bind].
    apply limbs_ok_app in Hok as [_ [Btop _]%limbs_ok_cons].
    destruct (to_string_limb top Btop) as (Sd & Sz & Sv & Sl).
    exists (to_string top ++ R). split_and!.
    + reflexivity.
    + by apply all_digits_app.
    + apply no_leading_zero_app; [exact Sz|lia].
    + rewrite stoul_app, Sv, Hv, Hl, pow10_base, take_app_length, limbs_value_app.
      cbn [limbs_value]. lia.
    + rewrite !length_app, Hl. cbn [length]. lia.
Qed.

(** ** Parsing *)

Lemma parse_loop_exit n s start i digits :
  i < start → parse_loop n s start i digits = Some digits.
Proof.
  intros H. destruct n; cbn [parse_loop]; rewrite Z.geb_leb;
    (destruct (Z.leb_spec start i); [lia|done]).
Qed.

Lemma parse_loop_spec s st : ∀ n j digits,
  (st ≤ j ≤ length s)%nat → all_digits (drop st s) →
  limbs_ok digits → length (drop j s) = (9 * length digits)%nat →
  stoul (drop j s) = limbs_value digits →
  (j - st ≤ 9 * n)%nat →
  ∃ ds, parse_loop n s (Z.of_nat st) (Z.of_nat j - 1) digits = Some ds ∧
        limbs_ok ds ∧ limbs_value ds = stoul (drop st s) ∧
        (length digits ≤ length ds)%nat ∧ ((st < j)%nat → ds ≠ []).
Proof.
  pose proof CELL_BASE_bound as HB.
  induction n as [|n IH]; intros j digits Hj Hall Hok Hlen Hval Hn.
  { assert (j = st) as -> by lia. exists digits.
    rewrite parse_loop_exit by lia. split_and!; try done; lia. }
  destruct (decide (j = st)) as [->|Hne].
  { exists digits. rewrite parse_loop_exit by lia. split_and!; try done; lia. }
  cbn [parse_loop]. rewrite Z.geb_leb.
  destruct (Z.leb_spec (Z.of_nat st) (Z.of_nat j - 1)); [|lia].
  set (e := Nat.max st (j - 9)).
  assert (Z.max (Z.of_nat st) (Z.of_nat j - 1 + 1 - CELL_LEN) = Z.of_nat e) as ->
    by (unfold CELL_LEN, e; lia).
  rewrite Nat2Z.id.
  replace (Z.to_nat (Z.of_nat j - 1 - Z.of_nat e + 1)) with (j - e)%nat by (unfold e; lia).
  set (part := substr s e (j - e)).
  assert (drop e s = part ++ drop j s) as Hsplit.
  { unfold part, substr. rewrite <- (take_drop (j - e) (drop e s)) at 1.
    f_equal. rewrite drop_drop. f_equal. unfold e. lia. }
  assert (all_digits (drop e s)) as Hde.
  { replace e with (st + (e - st))%nat by (unfold e; lia).
    rewrite <- drop_drop. by apply all_digits_drop. }
  assert (all_digits part) as Hpart.
  { rewrite Hsplit in Hde. by apply all_digits_app in Hde as [? _]. }
  assert (length part = (j - e)%nat) as Hlp.
  { unfold part, substr. rewrite length_take, length_drop. unfold e. lia. }
  pose proof (stoul_bound part Hpart) as Bpart. rewrite Hlp in Bpart.
  assert (10 ^ Z.of_nat (j - e) ≤ CELL_BASE) as Hpow.
  { rewrite CELL_BASE_eq. change 1000000000 with (10 ^ 9).
    apply Z.pow_le_mono_r; [lia|]. unfold e. lia. }
  rewrite u32_small by lia.
  assert (limbs_ok (digits ++ [stoul part])) as Hok'.
  { apply limbs_ok_app. split; [done|]. apply limbs_ok_cons. split; [lia|done]. }
  assert (limbs_value (digits ++ [stoul part]) = stoul (drop e s)) as Hval'.
  { rewrite limbs_value_app, Hsplit, stoul_app, Hlen, pow10_base, Hval.
    cbn [limbs_value]. lia. }
  change CELL_LEN with 9.
  destruct (decide (st + 9 ≤ j)%nat) as [Hfull|Hlast].
  - assert (e = (j - 9)%nat) as He by (unfold e; lia).
    replace (Z.of_nat j - 1 - 9) with (Z.of_nat e - 1) by lia.
    destruct (IH e (digits ++ [stoul part])) as (ds & Hds & Hokd & Hvd & Hld & _);
      try done; try lia.
    + rewrite Hsplit, !length_app, Hlp, Hlen. cbn [length]. lia.
    + exists ds. split_and!; try done.
      * rewrite length_app in Hld. lia.
      * intros _ ->. rewrite length_app in Hld. cbn [length] in Hld. lia.
  - assert (e = st) as He by (unfold e; lia).
    rewrite parse_loop_exit by lia.
    exists (digits ++ [stoul part]). split_and!; try done.
    + by rewrite Hval', He.
    + rewrite length_app. lia.
    + intros _ E. apply (f_equal length) in E. rewrite length_app in E.
      cbn [length] in E. lia.
Qed.

Lemma isdigit_not_sign c : isdigit c = true → is_sign c = false.
Proof.
  intros Hc. unfold is_sign.
  destruct (Ascii.eqb_spec c "-") as [->|_]; [done|].
  destruct (Ascii.eqb_spec c "+") as [->|_]; done.
Qed.

(** The string constructor on an optional sign followed by at least one
    digit: the magnitude is the number the digits spell. *)
Lemma BigInteger_of_string_spec fuel (sign D : list ascii) :
  sign = [] ∨ sign = ["+"%char] ∨ sign = ["-"%char] →
  all_digits D → D ≠ [] → (length D ≤ 9 * fuel)%nat →
  ∃ x, BigInteger_of_string fuel (sign ++ D) = Some x ∧ valid x ∧
       limbs_value (m_digits x) = stoul D ∧
       (stoul D ≠ 0 → m_negative x = is_minus sign).
Proof.
  intros Hsign HD Hne Hfuel.
  assert (∃ st, st = length sign ∧ (st ≤ 1)%nat) as (st & Hst & Hst1).
  { exists (length sign). split; [done|]. destruct Hsign as [->|[->| ->]]; cbn; lia. }
  assert (drop st (sign ++ D) = D) as Hdrop by (rewrite Hst; apply drop_app_length).
  destruct (parse_loop_spec (sign ++ D) st fuel (length (sign ++ D)) [])
    as (ds & Hds & Hokd & Hvd & _ & Hnonempty).
  { rewrite length_app. lia. }
  { by rewrite Hdrop. }
  { done. }
  { by rewrite drop_all. }
  { by rewrite drop_all. }
  { rewrite length_app. lia. }
  rewrite Hdrop in Hvd.
  assert (ds ≠ []) as Hds_ne.
  { apply Hnonempty. rewrite length_app. destruct D; [done|]. cbn [length]. lia. }
  assert (BigInteger_of_string fuel (sign ++ D) =
          Some (remove_leading_zeroes (mkBigInteger ds (is_minus sign)))) as ->.
  { destruct D as [|d D']; [done|]. apply all_digits_cons in HD as [Hd HD'].
    pose proof (isdigit_not_sign d Hd) as Hns. unfold is_sign in Hns.
    apply orb_false_iff in Hns as [Hm Hp].
    destruct (remove_leading_zeroes_spec (mkBigInteger ds (is_minus sign)))
      as (Hv & _); [done..|].
    pose proof (wf_nonempty _ (valid_wf _ Hv)) as Hnn.
    unfold BigInteger_of_string.
    destruct Hsign as [->|[->| ->]]; cbn [app] in *; subst st; cbn [length] in *.
    - unfold is_correct_str, is_sign. rewrite Hm, Hp. cbn [orb drop].
      assert (forallb isdigit (d :: D') = true) as ->
        by (by apply (proj2 (all_digits_cons d D'))).
      cbn [negb orb bool_decide]. rewrite ?bool_decide_eq_false_2 by done.
      cbn [orb].
      change (parse_loop fuel (d :: D') 0) with (parse_loop fuel (d :: D') (Z.of_nat 0)).
      rewrite Hds. cbn [mbind option_bind is_minus] in *.
      by destruct (m_digits (remove_leading_zeroes _)).
    - unfold is_correct_str, is_sign. cbn.
      assert (forallb isdigit (d :: D') = true) as HdD
        by (by apply (proj2 (all_digits_cons d D'))).
      cbn [forallb] in HdD. rewrite HdD. cbn [negb].
      change (parse_loop fuel ("+"%char :: d :: D') 1)
        with (parse_loop fuel ("+"%char :: d :: D') (Z.of_nat 1)).
      rewrite Hds. cbn [mbind option_bind is_minus] in *.
      by destruct (m_digits (remove_leading_zeroes _)).
    - unfold is_correct_str, is_sign. cbn.
      assert (forallb isdigit (d :: D') = true) as HdD
        by (by apply (proj2 (all_digits_cons d D'))).
      cbn [forallb] in HdD. rewrite HdD. cbn [negb].
      change (parse_loop fuel ("-"%char :: d :: D') 1)
        with (parse_loop fuel ("-"%char :: d :: D') (Z.of_nat 1)).
      rewrite Hds. cbn [mbind option_bind is_minus] in *.
      change (Ascii.eqb "-" "-") with true in *.
      by destruct (m_digits (remove_leading_zeroes _)). }
  destruct (remove_leading_zeroes_spec (mkBigInteger ds (is_minus sign)))
    as (Hv & _ & Hmag & _ & Hs); [done..|].
  cbn [m_digits m_negative] in Hmag, Hs.
  eexists. split; [reflexivity|]. split; [done|]. split; [by rewrite Hmag|].
  intros Hnz. apply Hs. by rewrite Hvd.
Qed.

Lemma no_leading_zero_nonempty s : no_leading_zero s = true → s ≠ [].
Proof. by destruct s. Qed.

Lemma value_of_magnitude x y :
  valid x → valid y →
  limbs_value (m_digits y) = limbs_value (m_digits x) →
  (limbs_value (m_digits x) ≠ 0 → m_negative y = m_negative x) →
  y = x.
Proof.
  intros Hx Hy Hmag Hs. apply valid_inj; [done..|].
  rewrite !value_unfold, Hmag.
  destruct (decide (limbs_value (m_digits x) = 0)) as [E|Hne].
  - rewrite E. by destruct (m_negative x), (m_negative y).
  - by rewrite (Hs Hne).
Qed.

(** C6 fails on the string ["-"]: the sign is read, no digit follows,
    [remove_leading_zeroes] returns at once on the empty vector, and the
    constructor pushes a zero limb under the sign that is already set.  The
    result is a zero with [m_negative = true], which is not [==] to
    [BigInteger(0)]; the string ["-0"] goes through [remove_leading_zeroes]
    and gives the canonical zero. *)
Theorem string_constructor_negative_zero (fuel : nat) :
  ∃ x zero,
    BigInteger_of_string fuel (literal "-") = Some x ∧
    BigInteger_of_int fuel 0 = Some zero ∧
    is_zero x = true ∧ m_negative x = true ∧
    operator_eq x zero = false ∧ validb x = false ∧
    BigInteger_of_string (S fuel) (literal "-0") = Some zero.
Proof.
  exists (mkBigInteger [0] true), (mkBigInteger [0] false).
  split; [unfold BigInteger_of_string; cbn; by destruct fuel|].
  split; [reflexivity|]. split; [reflexivity|]. split; [reflexivity|].
  split; [reflexivity|]. split; [reflexivity|].
  destruct (BigInteger_of_string_spec (S fuel) ["-"%char] ["0"%char])
    as (y & Hy & Vy & My & _); [auto|reflexivity|done|cbn [length]; lia|].
  change (["-"%char] ++ ["0"%char]) with (literal "-0") in Hy.
  rewrite Hy. f_equal.
  apply (value_of_magnitude (mkBigInteger [0] false)); [reflexivity|done| |].
  - rewrite My, stoul_single. cbn [m_digits limbs_value].
    change (digit_val "0") with 0. lia.
  - cbn [m_digits limbs_value]. lia.
Qed.

(** Parsing and rendering are inverse to each other on the values of the
    data model and on canonical texts: parsing the text
    of a BigInteger gives the BigInteger back, and rendering what was
    parsed from a text in canonical decimal form gives the text back. *)
Theorem text_round_trip (x : BigInteger) (s : list ascii) (fuel : nat) :
  valid x → canonical_text s = true →
  (length (m_digits x) ≤ fuel)%nat → (length s ≤ 9 * fuel)%nat →
  (∃ t, toString x = Some t ∧ BigInteger_of_string fuel t = Some x ∧
        (y ← BigInteger_of_string fuel t; Some (operator_eq y x)) = Some true) ∧
  (∃ y, BigInteger_of_string fuel s = Some y ∧ toString y = Some s).
Proof.
  intros Hx Hs Hfx Hfs. split.
  - destruct (toString_spec x Hx) as (S & HS & Hd & Hz & Hv & Hl).
    set (sign := if m_negative x then ["-"%char] else []) in *.
    destruct (BigInteger_of_string_spec fuel sign S) as (y & Hy & Vy & My & Sy).
    { unfold sign. destruct (m_negative x); auto. }
    { done. }
    { by apply no_leading_zero_nonempty. }
    { lia. }
    assert (y = x) as ->.
    { apply value_of_magnitude; [done..|congruence|].
      intros Hne. rewrite Sy by congruence. unfold sign. by destruct (m_negative x). }
    exists (sign ++ S). split; [done|]. split; [done|].
    rewrite Hy. cbn [mbind option_bind]. f_equal. by apply operator_eq_true.
  - assert (∃ sign D, s = sign ++ D ∧ (sign = [] ∨ sign = ["-"%char]) ∧
              all_digits D ∧ no_leading_zero D = true ∧
              (sign = ["-"%char] → stoul D ≠ 0)) as (sign & D & -> & Hsign & HD & HzD & Hnz).
    { destruct s as [|c rest]; [done|]. unfold canonical_text in Hs.
      destruct (Ascii.eqb_spec c "-") as [->|Hc].
      - apply andb_true_iff in Hs as [Hr Hh]. exists ["-"%char], rest.
        destruct rest as [|d rest']; [done|].
        assert (no_leading_zero (d :: rest') = true) as Hnl
          by (unfold no_leading_zero; by rewrite Hh).
        split_and!; try done; [by right|]. intros _.
        destruct (no_leading_zero_lower (d :: rest') Hr Hnl) as [E|Hlow].
        + injection E as -> _. done.
        + assert (0 < 10 ^ Z.of_nat (length (d :: rest') - 1))
            by (apply Z.pow_pos_nonneg; lia). lia.
      - apply andb_true_iff in Hs as [Hr Hh]. exists [], (c :: rest).
        split_and!; try done; by left. }
    rewrite length_app in Hfs.
    destruct (BigInteger_of_string_spec fuel sign D) as (y & Hy & Vy & My & Sy).
    { destruct Hsign as [->| ->]; auto. }
    { done. }
    { by apply no_leading_zero_nonempty. }
    { lia. }
    exists y. split; [done|].
    destruct (toString_spec y Vy) as (S & HS & Hd & Hz & Hv & _).
    rewrite HS. f_equal.
    assert (S = D) as -> by (apply stoul_inj; try done; congruence).
    f_equal.
    destruct Hsign as [->| ->].
    + destruct (decide (stoul D = 0)) as [E|Hne].
      * apply valid_inv in Vy as [Wy Hzero]. rewrite Hzero; [done|].
        apply wf_zero; [done|congruence].
      * by rewrite (Sy Hne).
    + by rewrite (Sy (Hnz eq_refl)).
Qed.

Lemma text_round_trip_example :
  let x := mkBigInteger [234567890; 345678901; 456789012; 123] true in
  let s := literal "-123456789012345678901234567890" in
  valid x ∧ canonical_text s = true ∧
  (length (m_digits x) ≤ 40)%nat ∧ (length s ≤ 9 * 40)%nat ∧
  toString x = Some s ∧ BigInteger_of_string 40 s = Some x ∧
  (∃ t, toString x = Some t ∧ BigInteger_of_string 40 t = Some x ∧
        (y ← BigInteger_of_string 40 t; Some (operator_eq y x)) = Some true) ∧
  (∃ y, BigInteger_of_string 40 s = Some y ∧ toString y = Some s).
Proof.
  intros x s.
  assert (Hx : valid x) by (vm_compute; reflexivity).
  assert (Hs : canonical_text s = true) by (vm_compute; reflexivity).
  assert (Hfx : (length (m_digits x) ≤ 40)%nat) by (vm_compute; lia).
  assert (Hfs : (length s ≤ 9 * 40)%nat) by (vm_compute; lia).
  split; [exact Hx|]. split; [exact Hs|]. split; [exact Hfx|]. split; [exact Hfs|].
  split; [vm_compute; reflexivity|]. split; [vm_compute; reflexivity|].
  exact (text_round_trip x s 40 Hx Hs Hfx Hfs).
Defined.

(** * Decimal expansion of a Rational *)








(** * Further properties of BigInteger *)

(** A normalized BigInteger is a value of the data model or the negative
    zero. *)
Lemma wf_cases x : wf x → valid x ∨ x = mkBigInteger [0] true.
Proof.
  intros Hx. destruct (decide (m_digits x = [0] ∧ m_negative x = true)) as [[H0 Hn]|Hno].
  - right. destruct x as [ds neg]. simpl in *. by subst.
  - left. apply valid_inv. split; [done|]. intros H0.
    destruct (m_negative x); [|done]. by destruct Hno.
Qed.

Lemma value_negative_zero : value (mkBigInteger [0] true) = 0.
Proof. rewrite value_unfold. simpl. lia. Qed.

Lemma value_zero_default x : valid x → value x = 0 → x = BigInteger_default.
Proof.
  intros Hx Hz. apply valid_inj; [done|apply valid_default|].
  by rewrite value_default.
Qed.

Lemma sub_assign_wf_spec fuel a b :
  wf a → wf b →
  (Nat.max (length (m_digits a)) (length (m_digits b)) < fuel)%nat →
  returns (sub_assign fuel a b) (value a - value b).
Proof.
  intros Ha Hb Hfuel. unfold sub_assign.
  destruct (operator_eq b a) eqn:Eq.
  - apply operator_eq_true in Eq as ->. simpl.
    apply (returns_intro _ (mkBigInteger [0] false)); [done..|].
    rewrite value_unfold. simpl. lia.
  - set (a' := mkBigInteger (m_digits a) (negb (m_negative a))).
    destruct (add_assign_spec fuel a' b (wf_sign a _ Ha) Hb Hfuel)
      as (r & Hr & Hv & Hval).
    rewrite Hr. simpl.
    assert (value a' = - value a) as Ha'.
    { unfold a'. rewrite !value_unfold. simpl. destruct (m_negative a); simpl; lia. }
    set (r' := mkBigInteger (m_digits r) (negb (m_negative r))).
    destruct (decide (value r = 0)) as [Hz|Hnz].
    + pose proof (value_zero_default r Hv Hz) as ->.
      apply (returns_intro _ (mkBigInteger [0] false)); [done..|].
      rewrite value_unfold. simpl. lia.
    + assert (valid r') as Hv' by (apply valid_flip; [done|lia]).
      assert (value r' = - value r) as Hr'.
      { unfold r'. rewrite !value_unfold. simpl. destruct (m_negative r); simpl; lia. }
      assert (is_zero r' = false) as ->.
      { destruct (is_zero r') eqn:Ez; [|done]. apply is_zero_spec in Ez.
        assert (value r' = 0); [|lia].
        rewrite value_unfold, Ez. simpl. destruct (negb (m_negative r)); lia. }
      apply (returns_intro _ r'); [done..|]. lia.
Qed.





Lemma operator_neg_wf_spec fuel x :
  wf x → (1 ≤ fuel)%nat → returns (operator_neg fuel x) (- value x).
Proof.
  intros Hx Hfuel. destruct (wf_cases x Hx) as [Hv| ->].
  - by apply operator_neg_spec.
  - pose proof CELL_BASE_bound as HB. unfold operator_neg.
    rewrite BigInteger_of_int_small by lia.
    apply (returns_intro _ (mkBigInteger [0] false)); [done..|].
    rewrite !value_unfold. simpl. lia.
Qed.

(** X3. Unary minus negates the integer and never produces a negative zero
    (it turns the negative zero into the canonical one); applied twice to a
    value of the data model it gives the value back. *)
Theorem negation_is_involutive (x : BigInteger) (fuel : nat) :
  wf x → (1 ≤ fuel)%nat →
  ∃ y, operator_neg fuel x = Some y ∧ valid y ∧ value y = - value x ∧
       (valid x → operator_neg fuel y = Some x).
Proof.
  intros Hx Hfuel.
  destruct (operator_neg_wf_spec fuel x Hx Hfuel) as (y & Hy & Vy & Ey).
  exists y. split; [done|]. split; [done|]. split; [done|]. intros Vx.
  destruct (operator_neg_spec fuel y Vy Hfuel) as (z & Hz & Vz & Ez).
  rewrite Hz. f_equal. apply valid_inj; [done..|lia].
Qed.

Lemma negation_is_involutive_example :
  let x := mkBigInteger [5; 7] false in
  wf x ∧ (1 ≤ 1)%nat ∧
  operator_neg 1 x = Some (mkBigInteger [5; 7] true) ∧
  ∃ y, operator_neg 1 x = Some y ∧ valid y ∧ value y = - value x ∧
       (valid x → operator_neg 1 y = Some x).
Proof.
  intros x.
  assert (Hx : wf x) by (vm_compute; reflexivity).
  split; [exact Hx|]. split; [lia|]. split; [vm_compute; reflexivity|].
  exact (negation_is_involutive x 1 Hx ltac:(lia)).
Defined.

(** X4. The observers of the sign: [abs] is the magnitude as a value of the
    data model, [isNegative] holds exactly of the negative integers and the
    conversion to [bool] exactly of the non-zero ones. *)
Theorem sign_observers (x : BigInteger) :
  valid x →
  valid (abs x) ∧ value (abs x) = Z.abs (value x) ∧
  isNegative x = (value x <? 0) ∧
  operator_bool x = negb (value x =? 0).
Proof.
  intros Hx. pose proof (valid_wf x Hx) as Wx.
  split; [by apply valid_abs|]. split.
  { rewrite value_abs. by apply value_magnitude. }
  split.
  { unfold isNegative. pose proof (value_sign x Hx) as Hs.
    destruct (m_negative x); destruct (Z.ltb_spec (value x) 0); try done.
    - assert (value x < 0) by (by apply Hs). lia.
    - assert (false = true) by (by apply Hs). done. }
  unfold operator_bool. destruct (is_zero x) eqn:Ez.
  - apply is_zero_spec in Ez. apply (wf_zero x Wx) in Ez.
    rewrite (value_magnitude x Wx) in Ez.
    destruct (Z.eqb_spec (value x) 0); [done|lia].
  - pose proof (is_zero_false_value x Hx Ez).
    destruct (Z.eqb_spec (value x) 0); [lia|done].
Qed.

Lemma sign_observers_example :
  let x := mkBigInteger [5; 7] true in
  valid x ∧
  valid (abs x) ∧ value (abs x) = Z.abs (value x) ∧
  isNegative x = (value x <? 0) ∧
  operator_bool x = negb (value x =? 0).
Proof.
  intros x.
  assert (Hx : valid x) by (vm_compute; reflexivity).
  split; [exact Hx|].
  exact (sign_observers x Hx).
Defined.

Lemma one_small fuel :
  (1 ≤ fuel)%nat → BigInteger_of_int fuel 1 = Some (mkBigInteger [1] false).
Proof.
  intros Hfuel. pose proof CELL_BASE_bound as HB.
  apply BigInteger_of_int_small; lia.
Qed.

Lemma valid_one : valid (mkBigInteger [1] false).
Proof. pose proof CELL_BASE_bound as HB. apply valid_small. lia. Qed.

Lemma operator_pre_inc_spec fuel x :
  wf x → (length (m_digits x) < fuel)%nat →
  returns (operator_pre_inc fuel x) (value x + 1).
Proof.
  intros Hx Hfuel. pose proof (wf_length x Hx) as Hl.
  unfold operator_pre_inc. rewrite one_small by lia.
  cbn [mbind option_bind].
  destruct (add_assign_spec fuel x (mkBigInteger [1] false) Hx
              (valid_wf _ valid_one)) as (r & Hr & Vr & Er).
  { cbn [m_digits length]. lia. }
  rewrite value_small in Er. by exists r.
Qed.

Lemma operator_pre_dec_spec fuel x :
  wf x → (length (m_digits x) < fuel)%nat →
  returns (operator_pre_dec fuel x) (value x - 1).
Proof.
  intros Hx Hfuel. pose proof (wf_length x Hx) as Hl.
  unfold operator_pre_dec. rewrite one_small by lia.
  cbn [mbind option_bind].
  destruct (sub_assign_wf_spec fuel x (mkBigInteger [1] false) Hx
              (valid_wf _ valid_one)) as (r & Hr & Vr & Er).
  { cbn [m_digits length]. lia. }
  rewrite value_small in Er. by exists r.
Qed.

Lemma length_succ x y :
  wf x → valid y → Z.abs (value y) ≤ Z.abs (value x) + 1 →
  (length (m_digits y) ≤ length (m_digits x) + 1)%nat.
Proof.
  intros Hx Hy Hle. pose proof CELL_BASE_bound as HB.
  pose proof (wf_length x Hx) as Hl.
  apply (sum_length_le y (value x) 1 (length (m_digits x)) Hy).
  - lia.
  - by apply wf_value_bound_le.
  - pose proof (pow_base_le 1 (length (m_digits x)) Hl) as Hp.
    change (Z.of_nat 1) with 1 in Hp. rewrite Z.pow_1_r in Hp. lia.
Qed.

(** X5. The increment and decrement operators on any normalized
    BigInteger, the negative zero included: the prefix forms add and
    subtract exactly one, the postfix forms return the old object beside
    the new one, and an increment followed by a decrement (or the reverse)
    returns the value of the data model that stands for the same integer,
    which is the original object whenever that is a value of the data
    model. *)
Theorem increment_and_decrement (x : BigInteger) (fuel : nat) :
  wf x → (length (m_digits x) + 1 < fuel)%nat →
  ∃ up down back,
    operator_pre_inc fuel x = Some up ∧ valid up ∧ value up = value x + 1 ∧
    operator_pre_dec fuel x = Some down ∧ valid down ∧ value down = value x - 1 ∧
    operator_post_inc fuel x = Some (x, up) ∧
    operator_post_dec fuel x = Some (x, down) ∧
    operator_pre_dec fuel up = Some back ∧
    operator_pre_inc fuel down = Some back ∧
    valid back ∧ value back = value x ∧ (valid x → back = x).
Proof.
  intros Wx Hfuel.
  destruct (operator_pre_inc_spec fuel x Wx ltac:(lia)) as (up & Hup & Vup & Eup).
  destruct (operator_pre_dec_spec fuel x Wx ltac:(lia)) as (down & Hdown & Vdown & Edown).
  pose proof (length_succ x up Wx Vup ltac:(lia)) as Lup.
  pose proof (length_succ x down Wx Vdown ltac:(lia)) as Ldown.
  destruct (operator_pre_dec_spec fuel up (valid_wf _ Vup) ltac:(lia))
    as (x1 & Hx1 & Vx1 & Ex1).
  destruct (operator_pre_inc_spec fuel down (valid_wf _ Vdown) ltac:(lia))
    as (x2 & Hx2 & Vx2 & Ex2).
  assert (x2 = x1) as -> by (apply valid_inj; done || lia).
  exists up, down, x1. unfold operator_post_inc, operator_post_dec.
  rewrite Hup, Hdown, Hx1, Hx2. cbn [mbind option_bind].
  do 12 (split; [done || lia|]).
  intros Vx. apply valid_inj; done || lia.
Qed.

Lemma increment_and_decrement_carry :
  let x := mkBigInteger [999999999] false in
  wf x ∧ (length (m_digits x) + 1 < 4)%nat ∧
  operator_pre_inc 4 x = Some (mkBigInteger [0; 1] false) ∧
  (up ← operator_pre_inc 4 (mkBigInteger [0] true); operator_pre_dec 4 up)
    = Some BigInteger_default ∧
  ∃ up down back,
    operator_pre_inc 4 x = Some up ∧ valid up ∧ value up = value x + 1 ∧
    operator_pre_dec 4 x = Some down ∧ valid down ∧ value down = value x - 1 ∧
    operator_post_inc 4 x = Some (x, up) ∧
    operator_post_dec 4 x = Some (x, down) ∧
    operator_pre_dec 4 up = Some back ∧
    operator_pre_inc 4 down = Some back ∧
    valid back ∧ value back = value x ∧ (valid x → back = x).
Proof.
  intros x.
  assert (Hx : wf x) by (vm_compute; reflexivity).
  assert (Hf : (length (m_digits x) + 1 < 4)%nat) by (vm_compute; lia).
  split; [exact Hx|]. split; [exact Hf|]. split; [vm_compute; reflexivity|].
  split; [vm_compute; reflexivity|].
  exact (increment_and_decrement x 4 Hx Hf).
Defined.

(** X6. [BigInteger(int)] is exact on every [int] above [INT_MIN], and the
    comparison of two converted values is the comparison of the [int]s. *)
Theorem int_constructor_is_exact (n m : Z) (fuel : nat) :
  INT_MIN < n ≤ INT_MAX → INT_MIN < m ≤ INT_MAX → (2 ≤ fuel)%nat →
  ∃ x y,
    BigInteger_of_int fuel n = Some x ∧ BigInteger_of_int fuel m = Some y ∧
    valid x ∧ value x = n ∧ (length (m_digits x) ≤ 2)%nat ∧
    operator_eq x y = bool_decide (n = m) ∧
    operator_lt x y = (n <? m).
Proof.
  intros Hn Hm Hfuel.
  destruct (BigInteger_of_int_spec fuel n Hn Hfuel) as (x & Hx & Vx & Ex & Lx).
  destruct (BigInteger_of_int_spec fuel m Hm Hfuel) as (y & Hy & Vy & Ey & Ly).
  exists x, y. rewrite (operator_eq_spec x y Vx Vy), (operator_lt_spec x y Vx Vy).
  rewrite Ex, Ey. done.
Qed.

Lemma int_constructor_is_exact_example :
  INT_MIN < -2000000000 ≤ INT_MAX ∧ INT_MIN < 7 ≤ INT_MAX ∧ (2 ≤ 2)%nat ∧
  BigInteger_of_int 2 (-2000000000) = Some (mkBigInteger [0; 2] true) ∧
  ∃ x y,
    BigInteger_of_int 2 (-2000000000) = Some x ∧ BigInteger_of_int 2 7 = Some y ∧
    valid x ∧ value x = -2000000000 ∧ (length (m_digits x) ≤ 2)%nat ∧
    operator_eq x y = bool_decide (-2000000000 = 7) ∧
    operator_lt x y = (-2000000000 <? 7).
Proof.
  assert (Hn : INT_MIN < -2000000000 ≤ INT_MAX) by (vm_compute; split; congruence).
  assert (Hm : INT_MIN < 7 ≤ INT_MAX) by (vm_compute; split; congruence).
  split; [exact Hn|]. split; [exact Hm|]. split; [lia|].
  split; [vm_compute; reflexivity|].
  exact (int_constructor_is_exact (-2000000000) 7 2 Hn Hm ltac:(lia)).
Defined.

(** X7. [operator*=] computes the exact product for any operands whose limbs
    are below the base, normalized or not, and a product that is zero is the
    canonical zero whatever the signs of the factors. *)
Theorem multiplication_is_exact (a b : BigInteger) (fuel : nat) :
  limbs_ok (m_digits a) → limbs_ok (m_digits b) →
  (length (m_digits b) < fuel)%nat →
  ∃ p, operator_mul fuel a b = Some p ∧ valid p ∧
       value p = value a * value b ∧
       (value a = 0 ∨ value b = 0 → p = BigInteger_default).
Proof.
  intros Ha Hb Hfuel.
  destruct (mul_assign_spec fuel a b Ha Hb Hfuel) as (p & Hp & Vp & Ep).
  exists p. split; [done|]. split; [done|]. split; [done|].
  intros Hz. apply value_zero_default; [done|]. rewrite Ep. destruct Hz as [-> | ->]; lia.
Qed.

Lemma multiplication_is_exact_negative_by_zero :
  let a := mkBigInteger [5; 7] true in
  let b := mkBigInteger [0] false in
  limbs_ok (m_digits a) ∧ limbs_ok (m_digits b) ∧
  (length (m_digits b) < 2)%nat ∧
  operator_mul 2 a b = Some BigInteger_default ∧
  ∃ p, operator_mul 2 a b = Some p ∧ valid p ∧
       value p = value a * value b ∧
       (value a = 0 ∨ value b = 0 → p = BigInteger_default).
Proof.
  intros a b.
  assert (Ha : limbs_ok (m_digits a)) by (vm_compute; reflexivity).
  assert (Hb : limbs_ok (m_digits b)) by (vm_compute; reflexivity).
  assert (Hf : (length (m_digits b) < 2)%nat) by (vm_compute; lia).
  split; [exact Ha|]. split; [exact Hb|]. split; [exact Hf|].
  split; [vm_compute; reflexivity|].
  exact (multiplication_is_exact a b 2 Ha Hb Hf).
Defined.







Lemma div_assign_wf_spec fuel a b :
  wf a → valid b → value b ≠ 0 →
  (length (m_digits b) + 32 ≤ fuel)%nat →
  returns (div_assign fuel a b) (Z.quot (value a) (value b)).
Proof.
  intros Wa Hb Hnz Hfuel. destruct (wf_cases a Wa) as [Ha| ->].
  { by apply div_assign_spec. }
  pose proof CELL_BASE_bound as HB.
  rewrite value_negative_zero, Z.quot_0_l by done.
  pose proof (valid_abs b (valid_wf b Hb)) as Vb.
  assert (value (abs b) = Z.abs (value b)) as Eb.
  { rewrite value_abs. by apply value_magnitude, valid_wf. }
  unfold div_assign.
  change (abs (mkBigInteger [0] true)) with BigInteger_default.
  rewrite (operator_eq_spec _ _ valid_default Vb),
    (operator_lt_spec _ _ valid_default Vb), value_default, Eb.
  rewrite bool_decide_eq_false_2 by lia.
  destruct (Z.ltb_spec 0 (Z.abs (value b))); [|lia].
  rewrite (BigInteger_of_int_small fuel 0) by lia.
  apply (returns_intro _ BigInteger_default);
    [done|apply valid_default|apply value_default].
Qed.

Lemma mod_assign_wf_spec fuel a b :
  wf a → valid b → value b ≠ 0 →
  (length (m_digits a) + length (m_digits b) + 32 ≤ fuel)%nat →
  returns (mod_assign fuel a b) (Z.rem (value a) (value b)).
Proof.
  intros Wa Hb Hnz Hfuel. destruct (wf_cases a Wa) as [Ha| ->].
  { by apply mod_assign_spec. }
  rewrite value_negative_zero, Z.rem_0_l by done.
  destruct (div_assign_wf_spec fuel (mkBigInteger [0] true) b Wa Hb Hnz ltac:(lia))
    as (q & Hq & Vq & Eq).
  rewrite value_negative_zero, Z.quot_0_l in Eq by done.
  pose proof (value_zero_default q Vq Eq) as ->.
  destruct (mul_assign_spec fuel BigInteger_default b) as (p & Hp & Vp & Ep);
    [done|by apply valid_limbs_ok|lia|].
  rewrite value_default, Z.mul_0_l in Ep.
  pose proof (value_zero_default p Vp Ep) as ->.
  unfold mod_assign. step Hq. step Hp.
  pose proof (sub_assign_wf_spec fuel (mkBigInteger [0] true) BigInteger_default Wa
                (valid_wf _ valid_default)) as Hs.
  rewrite value_negative_zero, value_default in Hs. apply Hs.
  change (length (m_digits BigInteger_default)) with 1%nat.
  change (length (m_digits (mkBigInteger [0] true))) with 1%nat. lia.
Qed.



(** * The negative zero in the laws of the spec

    [BigInteger("-")] returns the negative zero, digits [0] with the sign
    set.  The laws below hold on every value of the data model and fail on
    that one object. *)

Lemma negative_zero_constructed fuel :
  BigInteger_of_string fuel (literal "-") = Some (mkBigInteger [0] true).
Proof. unfold BigInteger_of_string; cbn; by destruct fuel. Qed.

Lemma wf_negative_zero : wf (mkBigInteger [0] true).
Proof. vm_compute; reflexivity. Qed.

Lemma returns_zero o : returns o 0 → o = Some BigInteger_default.
Proof.
  intros (r & -> & Vr & Er). f_equal. by apply value_zero_default.
Qed.

(** C1 fails on the negative zero: for [a = BigInteger("-")] and [b = 2]
    the quotient and the remainder are the canonical zero, so is
    [(a / b) * b + a % b], and [operator==], which compares the sign flags,
    tells it from [a]. *)
Theorem truncated_division_law_negative_zero (fuel : nat) :
  ∃ a b q r p s,
    BigInteger_of_string (40 + fuel) (literal "-") = Some a ∧
    BigInteger_of_int (40 + fuel) 2 = Some b ∧
    is_zero b = false ∧
    operator_div (40 + fuel) a b = Some q ∧
    operator_mod (40 + fuel) a b = Some r ∧
    operator_mul (40 + fuel) q b = Some p ∧
    operator_add (40 + fuel) p r = Some s ∧
    s = BigInteger_default ∧
    operator_eq a s = false.
Proof.
  assert (40 ≤ 40 + fuel)%nat as Hn by lia.
  generalize dependent (40 + fuel)%nat. intros n Hn.
  pose proof CELL_BASE_eq as HB.
  set (a := mkBigInteger [0] true). set (b := mkBigInteger [2] false).
  assert (valid b) as Vb by (apply valid_small; lia).
  assert (value b = 2) as Eb by apply value_small.
  assert (length (m_digits b) = 1%nat) as Lb by done.
  assert (length (m_digits a) = 1%nat) as La by done.
  pose proof wf_negative_zero as Wa. fold a in Wa.
  assert (value a = 0) as Ea by apply value_negative_zero.
  exists a, b, BigInteger_default, BigInteger_default, BigInteger_default,
    BigInteger_default.
  unfold operator_div, operator_mod, operator_mul, operator_add.
  split; [apply negative_zero_constructed|].
  split; [apply BigInteger_of_int_small; lia|].
  split; [reflexivity|].
  split.
  { apply returns_zero.
    pose proof (div_assign_wf_spec n a b Wa Vb ltac:(lia) ltac:(lia)) as H.
    by rewrite Ea, Eb in H. }
  split.
  { apply returns_zero.
    pose proof (mod_assign_wf_spec n a b Wa Vb ltac:(lia) ltac:(lia)) as H.
    by rewrite Ea, Eb in H. }
  split.
  { apply returns_zero.
    pose proof (mul_assign_spec n BigInteger_default b ltac:(done)
                  (valid_limbs_ok _ Vb) ltac:(lia)) as H.
    by rewrite value_default in H. }
  split.
  { apply returns_zero.
    pose proof (add_assign_spec n BigInteger_default BigInteger_default
                  (valid_wf _ valid_default) (valid_wf _ valid_default)) as H.
    rewrite value_default in H. apply H.
    change (length (m_digits BigInteger_default)) with 1%nat. lia. }
  split; reflexivity.
Qed.

(** C2 fails on the negative zero: in [BigInteger("-") + BigInteger("-")]
    the signs match, the magnitudes are added by [add_abs], and
    [remove_leading_zeroes] clears the sign of the zero sum, so the shared
    sign is not kept. *)
Theorem addition_of_negative_zeros (fuel : nat) :
  ∃ a s,
    BigInteger_of_string (2 + fuel) (literal "-") = Some a ∧
    m_negative a = true ∧
    operator_add (2 + fuel) a a = Some s ∧
    add_abs (2 + fuel) a a = Some s ∧
    limbs_value (m_digits s) =
      limbs_value (m_digits a) + limbs_value (m_digits a) ∧
    m_negative s = false.
Proof.
  assert (2 ≤ 2 + fuel)%nat as Hn by lia.
  generalize dependent (2 + fuel)%nat. intros n Hn.
  set (a := mkBigInteger [0] true).
  pose proof wf_negative_zero as Wa. fold a in Wa.
  assert (add_abs n a a = Some BigInteger_default) as Habs.
  { destruct (add_abs_spec n a a Wa Wa) as (r & Hr & Vr & Er & _).
    { change (length (m_digits a)) with 1%nat. lia. }
    rewrite Hr. f_equal. apply value_zero_default; [done|].
    rewrite value_unfold, Er. cbn [a m_digits limbs_value].
    destruct (m_negative r); lia. }
  exists a, BigInteger_default.
  split; [apply negative_zero_constructed|]. split; [reflexivity|].
  split; [exact Habs|]. split; [exact Habs|].
  split; [|reflexivity].
  cbn [BigInteger_default a m_digits limbs_value]. lia.
Qed.

(** C10 fails on the negative zero: [BigInteger("-")] is a zero
    BigInteger ([is_zero] holds), the division by [BigInteger(0)] or of
    [BigInteger(0)] by it takes the equal-magnitudes path, and the sign
    flags, which differ, make the result -1. *)
Theorem negative_zero_divided_by_zero (fuel : nat) :
  ∃ a zero one q,
    BigInteger_of_string fuel (literal "-") = Some a ∧ is_zero a = true ∧
    BigInteger_of_int fuel 0 = Some zero ∧ is_zero zero = true ∧
    BigInteger_of_int (S fuel) 1 = Some one ∧
    operator_eq (abs a) (abs zero) = true ∧
    operator_div fuel a zero = Some q ∧
    operator_div fuel zero a = Some q ∧
    q = mkBigInteger [1] true ∧
    operator_eq q one = false.
Proof.
  pose proof CELL_BASE_bound as HB.
  exists (mkBigInteger [0] true), (mkBigInteger [0] false),
    (mkBigInteger [1] false), (mkBigInteger [1] true).
  split; [apply negative_zero_constructed|]. split; [reflexivity|].
  split; [reflexivity|]. split; [reflexivity|].
  split; [apply BigInteger_of_int_small; lia|].
  do 4 (split; [reflexivity|]). reflexivity.
Qed.

(** ** Division by zero, whatever the dividend and the zero divisor *)






(** * Further properties of the text conversion *)

(** X11. The string constructor reads the number the digits spell: an
    optional sign, then decimal digits that may start with zeros; the value
    is the signed number and the result is a value of the data model. *)
Theorem string_constructor_reads_number (sign D : list ascii) (fuel : nat) :
  sign = [] ∨ sign = ["+"%char] ∨ sign = ["-"%char] →
  all_digits D → D ≠ [] → (length D ≤ 9 * fuel)%nat →
  ∃ x, BigInteger_of_string fuel (sign ++ D) = Some x ∧ valid x ∧
       value x = (if is_minus sign then - stoul D else stoul D).
Proof.
  intros Hsign HD Hne Hfuel.
  destruct (BigInteger_of_string_spec fuel sign D Hsign HD Hne Hfuel)
    as (x & Hx & Vx & Ex & Sx).
  exists x. split; [done|]. split; [done|].
  rewrite value_unfold, Ex. destruct (decide (stoul D = 0)) as [Hz|Hnz].
  - rewrite Hz. by destruct (m_negative x), (is_minus sign).
  - by rewrite (Sx Hnz).
Qed.

Lemma string_constructor_reads_number_example :
  let sign := ["+"%char] in
  let D := literal "0042" in
  (sign = [] ∨ sign = ["+"%char] ∨ sign = ["-"%char]) ∧
  all_digits D ∧ D ≠ [] ∧ (length D ≤ 9 * 1)%nat ∧
  BigInteger_of_string 1 (literal "+0042") = Some (mkBigInteger [42] false) ∧
  ∃ x, BigInteger_of_string 1 (sign ++ D) = Some x ∧ valid x ∧
       value x = (if is_minus sign then - stoul D else stoul D).
Proof.
  intros sign D.
  assert (Hs : sign = [] ∨ sign = ["+"%char] ∨ sign = ["-"%char])
    by (right; left; reflexivity).
  assert (HD : all_digits D) by (vm_compute; reflexivity).
  assert (Hne : D ≠ []) by (vm_compute; congruence).
  assert (Hf : (length D ≤ 9 * 1)%nat) by (vm_compute; lia).
  split; [exact Hs|]. split; [exact HD|]. split; [exact Hne|]. split; [exact Hf|].
  split; [vm_compute; reflexivity|].
  exact (string_constructor_reads_number sign D 1 Hs HD Hne Hf).
Defined.

(** A string that passes [is_correct_str] is an optional sign followed by
    digits. *)
Lemma is_correct_str_inv s :
  is_correct_str s = true → s ≠ [] →
  ∃ sign D, s = sign ++ D ∧
            (sign = [] ∨ sign = ["+"%char] ∨ sign = ["-"%char]) ∧ all_digits D.
Proof.
  intros Hc Hne. destruct s as [|c rest]; [done|].
  unfold is_correct_str in Hc. destruct (is_sign c) eqn:Es.
  - exists [c], rest. split; [done|]. split; [|exact Hc].
    unfold is_sign in Es. apply orb_true_iff in Es.
    destruct Es as [E|E]; apply Ascii.eqb_eq in E; subst; auto.
  - exists [], (c :: rest). split; [done|]. split; [by left|exact Hc].
Qed.

(** X12. The string constructor returns a value of the data model for every
    string but the lone minus sign: the empty string, a lone plus sign and
    every string with a character that is neither a digit nor a leading
    sign give the canonical zero, and an optional sign followed by digits
    gives the normalized BigInteger of the signed number the digits
    spell. *)
Theorem string_constructor_result_is_valid (s : list ascii) (fuel : nat) :
  s ≠ literal "-" → (length s ≤ 9 * fuel)%nat →
  ∃ x, BigInteger_of_string fuel s = Some x ∧ valid x ∧
       (s = [] ∨ s = literal "+" → x = BigInteger_default) ∧
       (∀ i c, s !! i = Some c → isdigit c = false →
               (i = 0%nat → is_sign c = false) → x = BigInteger_default) ∧
       (∀ sign D, s = sign ++ D →
          sign = [] ∨ sign = ["+"%char] ∨ sign = ["-"%char] →
          all_digits D → D ≠ [] →
          value x = (if is_minus sign then - stoul D else stoul D)).
Proof.
  intros Hs Hfuel.
  assert (∃ x, BigInteger_of_string fuel s = Some x ∧ valid x) as (x & Hx & Vx).
  { destruct (decide (s = [])) as [->|Hne].
    { exists BigInteger_default. split; [reflexivity|apply valid_default]. }
    destruct (is_correct_str s) eqn:Hc.
    2:{ exists BigInteger_default. split; [|apply valid_default].
        unfold BigInteger_of_string. rewrite Hc. by rewrite orb_true_r. }
    destruct (is_correct_str_inv s Hc Hne) as (sign & D & -> & Hsign & HD).
    destruct (decide (D = [])) as [->|HDne].
    - rewrite app_nil_r in *. destruct Hsign as [->|[->| ->]]; [done| |done].
      exists (mkBigInteger [0] false). split; [|apply valid_default].
      unfold BigInteger_of_string. cbn. by destruct fuel.
    - rewrite length_app in Hfuel.
      destruct (BigInteger_of_string_spec fuel sign D Hsign HD HDne ltac:(lia))
        as (x & Hx & Vx & _).
      by exists x. }
  exists x. split; [done|]. split; [done|]. split.
  { intros [->| ->].
    - assert (BigInteger_of_string fuel [] = Some BigInteger_default) as E
        by reflexivity. congruence.
    - assert (BigInteger_of_string fuel (literal "+") = Some BigInteger_default) as E
        by (unfold BigInteger_of_string; cbn; by destruct fuel). congruence. }
  split.
  { intros i c Hi Hc H0.
    assert (BigInteger_of_string fuel s = Some BigInteger_default) as E.
    { unfold BigInteger_of_string.
      rewrite (is_correct_str_false s i c Hi Hc H0). by rewrite orb_true_r. }
    congruence. }
  intros sign D -> Hsign HD HDne. rewrite length_app in Hfuel.
  destruct (BigInteger_of_string_spec fuel sign D Hsign HD HDne ltac:(lia))
    as (y & Hy & Vy & Ey & Sy).
  assert (y = x) as -> by congruence.
  rewrite value_unfold, Ey. destruct (decide (stoul D = 0)) as [Hz|Hnz].
  - rewrite Hz. by destruct (m_negative x), (is_minus sign).
  - by rewrite (Sy Hnz).
Qed.

Lemma string_constructor_result_is_valid_plus :
  let s := literal "+" in
  s ≠ literal "-" ∧ (length s ≤ 9 * 1)%nat ∧
  BigInteger_of_string 1 s = Some BigInteger_default ∧
  BigInteger_of_string 1 (literal "-007") = Some (mkBigInteger [7] true) ∧
  ∃ x, BigInteger_of_string 1 s = Some x ∧ valid x ∧
       (s = [] ∨ s = literal "+" → x = BigInteger_default) ∧
       (∀ i c, s !! i = Some c → isdigit c = false →
               (i = 0%nat → is_sign c = false) → x = BigInteger_default) ∧
       (∀ sign D, s = sign ++ D →
          sign = [] ∨ sign = ["+"%char] ∨ sign = ["-"%char] →
          all_digits D → D ≠ [] →
          value x = (if is_minus sign then - stoul D else stoul D)).
Proof.
  intros s.
  assert (Hs : s ≠ literal "-") by (vm_compute; congruence).
  assert (Hf : (length s ≤ 9 * 1)%nat) by (vm_compute; lia).
  split; [exact Hs|]. split; [exact Hf|]. split; [vm_compute; reflexivity|].
  split; [vm_compute; reflexivity|].
  exact (string_constructor_result_is_valid s 1 Hs Hf).
Defined.




(** C3 fails on the negative zero: [toString] prints [BigInteger("-")] as
    "0", the string constructor reads "0" as the canonical zero, and
    [operator==] tells that from the negative zero. *)
Theorem text_round_trip_negative_zero (fuel : nat) :
  ∃ x t y,
    BigInteger_of_string (1 + fuel) (literal "-") = Some x ∧
    toString x = Some t ∧ t = literal "0" ∧
    BigInteger_of_string (1 + fuel) t = Some y ∧
    y = BigInteger_default ∧
    operator_eq y x = false.
Proof.
  exists (mkBigInteger [0] true), (literal "0"), BigInteger_default.
  split; [apply negative_zero_constructed|].
  split; [reflexivity|]. split; [reflexivity|]. split; [|split; reflexivity].
  destruct (BigInteger_of_string_spec (1 + fuel) [] ["0"%char])
    as (y & Hy & Vy & My & _); [auto|reflexivity|done|cbn [length]; lia|].
  change ([] ++ ["0"%char]) with (literal "0") in Hy.
  rewrite Hy. f_equal. apply value_zero_default; [done|].
  rewrite value_unfold, My, stoul_single. change (digit_val "0") with 0.
  by destruct (m_negative y).
Qed.

(** X14. The literal operator on an [unsigned long long] is exact on the
    whole range of the type: the decimal text of [std::to_string] parses
    back to the number. *)
Theorem unsigned_literal_is_exact (num : Z) (fuel : nat) :
  0 ≤ num < 2 ^ 64 → (3 ≤ fuel)%nat →
  ∃ x, operator_bi fuel num = Some x ∧ valid x ∧ value x = num ∧
       m_negative x = false.
Proof.
  intros Hnum Hfuel.
  destruct (to_string_spec num 20) as (Hd & Hz & Hv & Hl); [lia|lia|].
  pose proof (no_leading_zero_nonempty _ Hz) as Hne.
  destruct (BigInteger_of_string_spec fuel [] (to_string num)) as (x & Hx & Vx & Ex & Sx);
    [by left|done|done|lia|].
  exists x. split; [exact Hx|]. split; [done|]. rewrite Hv in Ex, Sx.
  assert (m_negative x = false) as Hs.
  { destruct (decide (num = 0)) as [->|Hnz]; [|by apply Sx].
    apply valid_inv in Vx as [Wx H0]. apply H0. by apply wf_zero. }
  split; [|done]. rewrite value_unfold, Hs. done.
Qed.

Lemma unsigned_literal_is_exact_max :
  0 ≤ 18446744073709551615 < 2 ^ 64 ∧ (3 ≤ 3)%nat ∧
  operator_bi 3 18446744073709551615 =
    Some (mkBigInteger [709551615; 446744073; 18] false) ∧
  ∃ x, operator_bi 3 18446744073709551615 = Some x ∧ valid x ∧
       value x = 18446744073709551615 ∧ m_negative x = false.
Proof.
  assert (Hn : 0 ≤ 18446744073709551615 < 2 ^ 64) by lia.
  split; [exact Hn|]. split; [lia|]. split; [vm_compute; reflexivity|].
  exact (unsigned_literal_is_exact 18446744073709551615 3 Hn ltac:(lia)).
Defined.

(** X15. [remove_leading_zeroes] turns any non-empty vector of limbs below
    the base into a value of the data model that stands for the same
    integer, it is idempotent, it leaves values of the data model alone,
    and it leaves an empty vector empty. *)
Theorem remove_leading_zeroes_normalizes (x : BigInteger) :
  m_digits x ≠ [] → limbs_ok (m_digits x) →
  valid (remove_leading_zeroes x) ∧
  value (remove_leading_zeroes x) = value x ∧
  remove_leading_zeroes (remove_leading_zeroes x) = remove_leading_zeroes x ∧
  (valid x → remove_leading_zeroes x = x) ∧
  (∀ neg, remove_leading_zeroes (mkBigInteger [] neg) = mkBigInteger [] neg).
Proof.
  intros Hne Hok.
  destruct (remove_leading_zeroes_spec x Hne Hok) as (Hv & Hval & _).
  assert (∀ y, valid y → remove_leading_zeroes y = y) as Hid.
  { intros y Hy. apply valid_inv in Hy as [Wy H0]. apply wf_inv in Wy as [_ Hn].
    apply remove_leading_zeroes_id; [done|].
    destruct (decide (m_digits y = [0])); [right; auto|by left]. }
  split; [done|]. split; [done|]. split; [by apply Hid|]. split; [apply Hid|].
  intros neg. reflexivity.
Qed.

Lemma remove_leading_zeroes_normalizes_example :
  let x := mkBigInteger [5; 0; 0] true in
  m_digits x ≠ [] ∧ limbs_ok (m_digits x) ∧
  remove_leading_zeroes x = mkBigInteger [5] true ∧
  remove_leading_zeroes (mkBigInteger [0; 0] true) = mkBigInteger [0] false ∧
  valid (remove_leading_zeroes x) ∧
  value (remove_leading_zeroes x) = value x ∧
  remove_leading_zeroes (remove_leading_zeroes x) = remove_leading_zeroes x ∧
  (valid x → remove_leading_zeroes x = x) ∧
  (∀ neg, remove_leading_zeroes (mkBigInteger [] neg) = mkBigInteger [] neg).
Proof.
  intros x.
  assert (Hne : m_digits x ≠ []) by (vm_compute; congruence).
  assert (Hok : limbs_ok (m_digits x)) by (vm_compute; reflexivity).
  split; [exact Hne|]. split; [exact Hok|].
  split; [vm_compute; reflexivity|]. split; [vm_compute; reflexivity|].
  exact (remove_leading_zeroes_normalizes x Hne Hok).
Defined.

(** * Further properties of Rational *)
































Lemma lowest_termsb_zero_denominator num :
  lowest_termsb (mkRational num BigInteger_default) = false.
Proof.
  unfold lowest_termsb. cbn [numerator denominator]. rewrite value_default.
  change (0 <? 0) with false. by rewrite andb_false_r.
Qed.

Lemma normalize_zero_denominator fuel num :
  valid num → (2 * length (m_digits num) + 32 ≤ fuel)%nat →
  ∃ n, normalize fuel (mkRational num BigInteger_default) =
         Some (mkRational n BigInteger_default) ∧
       valid n ∧ value n = Z.sgn (value num).
Proof.
  intros Hn Hfuel. pose proof CELL_BASE_bound as HB.
  pose proof (wf_length num (valid_wf _ Hn)) as Ln.
  unfold normalize.
  rewrite (BigInteger_of_int_small fuel 0) by lia.
  change (mkBigInteger [0] false) with BigInteger_default.
  cbn [mbind option_bind numerator denominator].
  rewrite (operator_lt_spec _ _ valid_default valid_default), value_default.
  change (0 <? 0) with false. cbv iota. cbn [mbind option_bind numerator denominator].
  destruct (gcd_spec fuel num BigInteger_default Hn valid_default) as (g & Hg & Vg & Eg).
  { rewrite value_default. change (Z.to_nat (Z.abs 0)) with 0%nat. lia. }
  { change (length (m_digits BigInteger_default)) with 1%nat. lia. }
  rewrite value_default, Z.gcd_0_r in Eg.
  step Hg. unfold operator_ne.
  rewrite (operator_eq_spec g _ Vg valid_default), value_default.
  destruct (decide (value num = 0)) as [Hz|Hnz].
  - rewrite bool_decide_eq_true_2 by lia. cbn [negb].
    exists num. split; [done|]. split; [done|]. by rewrite Hz.
  - rewrite bool_decide_eq_false_2 by lia. cbn [negb].
    assert (g = abs num) as Eabs.
    { apply valid_inj; [done|by apply valid_abs, valid_wf|].
      rewrite Eg, value_abs. symmetry. by apply value_magnitude, valid_wf. }
    assert (length (m_digits g) = length (m_digits num)) as Lg by (by rewrite Eabs).
    destruct (div_assign_spec fuel num g Hn Vg) as (q & Hq & Vq & Eq); [lia|lia|].
    destruct (div_assign_spec fuel BigInteger_default g valid_default Vg)
      as (d & Hd & Vd & Ed); [lia|lia|].
    step Hq. step Hd. rewrite value_default, Z.quot_0_l in Ed by lia.
    pose proof (value_zero_default d Vd Ed) as ->.
    exists q. split; [done|]. split; [done|].
    rewrite Eq, Eg. destruct (Z.abs_spec (value num)) as [[Hp ->]|[Hp ->]].
    + rewrite Z.quot_same by done. lia.
    + rewrite Z.quot_opp_r, Z.quot_same by lia. lia.
Qed.

(** X22. A zero denominator is not rejected: [Rational(num, 0)] ends
    without an error and keeps the denominator zero, with the numerator cut
    down to its sign (1, -1 or 0), so the object breaks the invariant of the
    class. *)
Theorem rational_with_zero_denominator (num : BigInteger) (fuel : nat) :
  valid num → (2 * length (m_digits num) + 32 ≤ fuel)%nat →
  ∃ r, (zero ← BigInteger_of_int fuel 0; Rational_of_pair fuel num zero) = Some r ∧
       valid (numerator r) ∧ value (numerator r) = Z.sgn (value num) ∧
       denominator r = BigInteger_default ∧ lowest_termsb r = false.
Proof.
  intros Hn Hfuel. pose proof CELL_BASE_bound as HB.
  rewrite (BigInteger_of_int_small fuel 0) by lia. cbn [mbind option_bind].
  change (mkBigInteger [0] false) with BigInteger_default.
  destruct (normalize_zero_denominator fuel num Hn Hfuel) as (n & Hr & Vn & En).
  unfold Rational_of_pair. rewrite Hr. eexists. split; [done|].
  cbn [numerator denominator]. split; [done|]. split; [done|]. split; [done|].
  apply lowest_termsb_zero_denominator.
Qed.

Lemma rational_with_zero_denominator_example :
  let num := mkBigInteger [6] true in
  valid num ∧ (2 * length (m_digits num) + 32 ≤ 40)%nat ∧
  (zero ← BigInteger_of_int 40 0; Rational_of_pair 40 num zero) =
    Some (mkRational (mkBigInteger [1] true) (mkBigInteger [0] false)) ∧
  ∃ r, (zero ← BigInteger_of_int 40 0; Rational_of_pair 40 num zero) = Some r ∧
       valid (numerator r) ∧ value (numerator r) = Z.sgn (value num) ∧
       denominator r = BigInteger_default ∧ lowest_termsb r = false.
Proof.
  intros num.
  assert (Hn : valid num) by (vm_compute; reflexivity).
  assert (Hf : (2 * length (m_digits num) + 32 ≤ 40)%nat) by (vm_compute; lia).
  split; [exact Hn|]. split; [exact Hf|]. split; [vm_compute; reflexivity|].
  exact (rational_with_zero_denominator num 40 Hn Hf).
Defined.

(** X23. Dividing by a Rational that is zero is not rejected either: the
    quotient ends with denominator zero and the sign of the dividend as
    numerator. *)
Theorem rational_division_by_zero (a b : Rational) (fuel : nat) :
  lowest_terms a → lowest_terms b → value (numerator b) = 0 →
  (2 * (limbs_of a + limbs_of b) + 32 ≤ fuel)%nat →
  ∃ r, Rational_operator_div fuel a b = Some r ∧
       value (numerator r) = Z.sgn (value (numerator a)) ∧
       denominator r = BigInteger_default ∧ lowest_termsb r = false.
Proof.
  intros (Vn1 & Vd1 & Pd1 & _)%lowest_terms_inv (Vn2 & Vd2 & Pd2 & _)%lowest_terms_inv
    Hz Hfuel.
  unfold limbs_of in Hfuel. unfold Rational_operator_div, Rational_div_assign.
  cbv zeta. cbn [deref numerator denominator].
  destruct (mul_assign_length fuel (numerator a) (denominator b)
              (length (m_digits (numerator a))) (length (m_digits (denominator b))))
    as (num & Hnum & Vnum & Enum & Lnum); try done; try lia.
  destruct (mul_assign_length fuel (denominator a) (numerator b)
              (length (m_digits (denominator a))) (length (m_digits (numerator b))))
    as (den & Hden & Vden & Eden & Lden); try done; try lia.
  step Hnum. step Hden.
  rewrite Hz, Z.mul_0_r in Eden. pose proof (value_zero_default den Vden Eden) as ->.
  destruct (normalize_zero_denominator fuel num Vnum ltac:(lia)) as (n & Hn & Vn & En).
  rewrite Hn. eexists. split; [done|]. cbn [numerator denominator].
  split; [|split; [done|apply lowest_termsb_zero_denominator]].
  rewrite En, Enum, Z.sgn_mul, (Z.sgn_pos (value (denominator b))) by done. lia.
Qed.

Lemma rational_division_by_zero_example :
  let a := mkRational (mkBigInteger [1] true) (mkBigInteger [2] false) in
  let b := mkRational (mkBigInteger [0] false) (mkBigInteger [1] false) in
  lowest_terms a ∧ lowest_terms b ∧ value (numerator b) = 0 ∧
  (2 * (limbs_of a + limbs_of b) + 32 ≤ 40)%nat ∧
  Rational_operator_div 40 a b =
    Some (mkRational (mkBigInteger [1] true) (mkBigInteger [0] false)) ∧
  ∃ r, Rational_operator_div 40 a b = Some r ∧
       value (numerator r) = Z.sgn (value (numerator a)) ∧
       denominator r = BigInteger_default ∧ lowest_termsb r = false.
Proof.
  intros a b.
  assert (Ha : lowest_terms a) by (vm_compute; reflexivity).
  assert (Hb : lowest_terms b) by (vm_compute; reflexivity).
  assert (Hz : value (numerator b) = 0) by (vm_compute; reflexivity).
  assert (Hf : (2 * (limbs_of a + limbs_of b) + 32 ≤ 40)%nat) by (vm_compute; lia).
  split; [exact Ha|]. split; [exact Hb|]. split; [exact Hz|]. split; [exact Hf|].
  split; [vm_compute; reflexivity|].
  exact (rational_division_by_zero a b 40 Ha Hb Hz Hf).
Defined.





